(** * Family expense tracker: path resolution and the family invite lifecycle

    A shallow embedding of
      - [src/utils/environment.ts] (module [Environment]),
      - the document helpers of [firebase.ts], [addFamilyToUser] of the
        auth service and the invite and member operations of the family
        service (section [Services]), which sit on a model of the
        Firestore document store (module [Firestore]) and of the
        JavaScript [Date] object (module [JSDate]),
    followed by the properties of the specification that concern them. *)

From stdpp Require Import gmap strings list fin_maps.
From stdpp Require Import sorting.
From Stdlib Require Import ZArith Lia.

(** ** Completions of a JavaScript call *)

(** A call either returns a value or throws [new Error(msg)]; the thrown
    error is represented by its message. *)
Inductive result (A : Type) : Type :=
| Ok (v : A)
| Err (msg : string).
Arguments Ok {A} v.
Arguments Err {A} msg.

Definition throws {A} (r : result A) : Prop := ∃ msg, r = Err msg.
Definition returns {A} (r : result A) (v : A) : Prop := r = Ok v.

(** ** src/utils/environment.ts *)
Module Environment.

(** [import.meta.env]: every variable is a string or is undefined. *)
Record ImportMetaEnv := {
  VITE_APP_ENV : option string;
  VITE_USE_EMULATORS : option string;
  VITE_FIRESTORE_ROOT_PATH : option string;
  VITE_FIREBASE_API_KEY : option string;
  VITE_FIREBASE_AUTH_DOMAIN : option string;
  VITE_FIREBASE_PROJECT_ID : option string;
  VITE_FIREBASE_STORAGE_BUCKET : option string;
  VITE_FIREBASE_MESSAGING_SENDER_ID : option string;
  VITE_FIREBASE_APP_ID : option string;
}.

Inductive AppEnvironment := local | preview | production.

#[global] Instance AppEnvironment_eq_dec : EqDecision AppEnvironment.
Proof. solve_decision. Defined.

(** [x || ''] for [x : string | undefined]. *)
Definition or_empty (x : option string) : string := default "" x.

(** [!s] for a string: only the empty string is falsy. *)
Definition falsy (s : string) : bool := bool_decide (s = "").

Definition getAppEnvironment (e : ImportMetaEnv) : AppEnvironment :=
  if bool_decide (VITE_APP_ENV e = Some "production") then production
  else if bool_decide (VITE_APP_ENV e = Some "preview") then preview
  else local.

Definition isLocalEnvironment (e : ImportMetaEnv) : bool :=
  bool_decide (getAppEnvironment e = local).
Definition isPreviewEnvironment (e : ImportMetaEnv) : bool :=
  bool_decide (getAppEnvironment e = preview).
Definition isProductionEnvironment (e : ImportMetaEnv) : bool :=
  bool_decide (getAppEnvironment e = production).

Definition useEmulators (e : ImportMetaEnv) : bool :=
  bool_decide (VITE_USE_EMULATORS e = Some "true").

Definition getFirestoreRootPath (e : ImportMetaEnv) : string :=
  or_empty (VITE_FIRESTORE_ROOT_PATH e).

Definition getCollectionPath (e : ImportMetaEnv) (collectionName : string)
  : string :=
  let rootPath := getFirestoreRootPath e in
  if falsy rootPath then collectionName
  else rootPath +:+ "/" +:+ collectionName.

Definition getDocumentPath (e : ImportMetaEnv)
    (collectionName documentId : string) : string :=
  getCollectionPath e collectionName +:+ "/" +:+ documentId.

(** The completion of a call [getDocumentPath(collectionName,
    documentId)]: the body is a single [return] of a template literal
    over its two strings, and nothing in it throws. *)
Definition getDocumentPath_call (e : ImportMetaEnv)
    (collectionName documentId : string) : result string :=
  Ok (getDocumentPath e collectionName documentId).

Record FirebaseOptions := {
  apiKey : string;
  authDomain : string;
  projectId : string;
  storageBucket : string;
  messagingSenderId : string;
  appId : string;
}.

(** The [emulators] ports of the configuration are parsed only when the
    emulators are in use and are read by nothing below; they are left
    out of the record. *)
Record EnvironmentConfig := {
  appEnv : AppEnvironment;
  cfg_useEmulators : bool;
  firestoreRootPath : string;
  firebase : FirebaseOptions;
}.

Definition getEnvironmentConfig (e : ImportMetaEnv) : EnvironmentConfig :=
  {| appEnv := getAppEnvironment e;
     cfg_useEmulators := useEmulators e;
     firestoreRootPath := getFirestoreRootPath e;
     firebase :=
       {| apiKey := or_empty (VITE_FIREBASE_API_KEY e);
          authDomain := or_empty (VITE_FIREBASE_AUTH_DOMAIN e);
          projectId := or_empty (VITE_FIREBASE_PROJECT_ID e);
          storageBucket := or_empty (VITE_FIREBASE_STORAGE_BUCKET e);
          messagingSenderId :=
            or_empty (VITE_FIREBASE_MESSAGING_SENDER_ID e);
          appId := or_empty (VITE_FIREBASE_APP_ID e) |} |}.

Definition newline : string := String (Ascii.ascii_of_nat 10) "".

Definition rootPathWarning : string :=
  "⚠️ Warning: VITE_FIRESTORE_ROOT_PATH is not set. " +:+
  "Data will be stored at the root level of Firestore.".

(** The [errors] array after the two [push] guards. *)
Definition configErrors (config : EnvironmentConfig) : list string :=
  (if falsy (apiKey (firebase config)) && negb (cfg_useEmulators config)
   then ["VITE_FIREBASE_API_KEY is required"] else [])
  ++
  (if falsy (projectId (firebase config))
   then ["VITE_FIREBASE_PROJECT_ID is required"] else []).

(** What [console.warn] receives. *)
Definition configWarnings (config : EnvironmentConfig) : list string :=
  if negb (bool_decide (appEnv config = local))
     && falsy (firestoreRootPath config)
  then [rootPathWarning] else [].

Definition configErrorMessage (errors : list string) : string :=
  "Environment configuration errors:" +:+ newline +:+
  String.concat newline (map (λ e, "  - " +:+ e) errors).

(** [validateEnvironmentConfig()]: the lines sent to [console.warn],
    and the completion. *)
Definition validateEnvironmentConfig (e : ImportMetaEnv)
  : list string * result unit :=
  let config := getEnvironmentConfig e in
  let errors := configErrors config in
  (configWarnings config,
   if bool_decide (0 < length errors)%nat
   then Err (configErrorMessage errors)
   else Ok tt).

End Environment.

(** ** The JavaScript [Date] object (ECMA-262, section "Date Objects")

    A time value is a number of milliseconds since the epoch, in UTC.  The
    readings of the clock used below lie far inside the range of time
    values, so [TimeClip] is the identity on them and is not modelled.
    The local time zone adjustment is the host's: a function [tza] giving
    the offset in milliseconds, at a UTC time value ([true]) or at a local
    one ([false]). *)
Module JSDate.
Open Scope Z_scope.

Definition msPerDay : Z := 86400000.
Definition msPerHour : Z := 3600000.

Definition Day (t : Z) : Z := t / msPerDay.
Definition TimeWithinDay (t : Z) : Z := t mod msPerDay.

Definition isLeapYear (y : Z) : bool :=
  if negb (y mod 4 =? 0) then false
  else if negb (y mod 100 =? 0) then true
  else if negb (y mod 400 =? 0) then false
  else true.

Definition DaysInYear (y : Z) : Z := if isLeapYear y then 366 else 365.

Definition DayFromYear (y : Z) : Z :=
  365 * (y - 1970) + (y - 1969) / 4 - (y - 1901) / 100 + (y - 1601) / 400.

Definition TimeFromYear (y : Z) : Z := msPerDay * DayFromYear y.

(** The largest [y] with [TimeFromYear y <= t]: the mean year length
    gives an estimate that is off by one at most. *)
Definition YearFromTime (t : Z) : Z :=
  let y := 1970 + (400 * Day t) / 146097 in
  if Day t <? DayFromYear y then y - 1
  else if DayFromYear (y + 1) <=? Day t then y + 1
  else y.

Definition InLeapYear (t : Z) : Z :=
  if isLeapYear (YearFromTime t) then 1 else 0.

Definition DayWithinYear (t : Z) : Z :=
  Day t - DayFromYear (YearFromTime t).

(** Days of the year before the first of month [m] (0 = January). *)
Definition daysBeforeMonth (m leap : Z) : Z :=
  if m =? 0 then 0
  else if m =? 1 then 31
  else if m =? 2 then 59 + leap
  else if m =? 3 then 90 + leap
  else if m =? 4 then 120 + leap
  else if m =? 5 then 151 + leap
  else if m =? 6 then 181 + leap
  else if m =? 7 then 212 + leap
  else if m =? 8 then 243 + leap
  else if m =? 9 then 273 + leap
  else if m =? 10 then 304 + leap
  else 334 + leap.

Definition MonthFromTime (t : Z) : Z :=
  let d := DayWithinYear t in
  let leap := InLeapYear t in
  if d <? 31 then 0
  else if d <? 59 + leap then 1
  else if d <? 90 + leap then 2
  else if d <? 120 + leap then 3
  else if d <? 151 + leap then 4
  else if d <? 181 + leap then 5
  else if d <? 212 + leap then 6
  else if d <? 243 + leap then 7
  else if d <? 273 + leap then 8
  else if d <? 304 + leap then 9
  else if d <? 334 + leap then 10
  else 11.

Definition DateFromTime (t : Z) : Z :=
  DayWithinYear t - daysBeforeMonth (MonthFromTime t) (InLeapYear t) + 1.

(** [MakeDay]: the day number of the first of month [mn] of year [ym],
    plus [date - 1]. *)
Definition MakeDay (year month date : Z) : Z :=
  let ym := year + month / 12 in
  let mn := month mod 12 in
  DayFromYear ym
  + daysBeforeMonth mn (if isLeapYear ym then 1 else 0)
  + date - 1.

Definition MakeDate (day time : Z) : Z := day * msPerDay + time.

Section LocalZone.
Variable tza : Z → bool → Z.

Definition LocalTime (t : Z) : Z := t + tza t true.
Definition UTC (t : Z) : Z := t - tza t false.

(** [d.getDate()] and the time value of [d] after [d.setDate(date)]. *)
Definition getDate (t : Z) : Z := DateFromTime (LocalTime t).

Definition setDate (t date : Z) : Z :=
  let lt := LocalTime t in
  let newDate :=
    MakeDate (MakeDay (YearFromTime lt) (MonthFromTime lt) date)
             (TimeWithinDay lt) in
  UTC newDate.
End LocalZone.

(** A zone with a fixed offset, and one that is at UTC+2 before the UTC
    time value [switch] and at UTC+1 from it on (the end of summer time
    in central Europe). *)
Definition fixedZone (offset : Z) : Z → bool → Z := λ _ _, offset.

Definition summerTimeEnds (switch : Z) : Z → bool → Z :=
  λ t isUTC,
    if isUTC
    then (if t <? switch then 2 * msPerHour else msPerHour)
    else (if t <? switch + 2 * msPerHour then 2 * msPerHour else msPerHour).

End JSDate.

(** ** The Firestore document store

    Documents have the shapes the TypeScript interfaces declare
    ([FirestoreUser], [FirestoreFamily], and for invites the object
    [createFamilyInvite] writes and [getInvite] reads); the fields the
    services guard with [|| []] or [?.] when they read them are optional.
    [monthlyAnomalies] of a family, which the invite lifecycle never
    touches, is left out.  A document is addressed by its path, and each of
    the three collections holds the documents of its own shape. *)
Module Firestore.

Inductive InviteStatus := pending | accepted | expired.

#[global] Instance InviteStatus_eq_dec : EqDecision InviteStatus.
Proof. solve_decision. Defined.

Record FirestoreUser := {
  user_email : string;
  user_displayName : string;
  user_photoUrl : option string;
  user_families : option (list string);
  user_createdAt : option Z;
  user_updatedAt : option Z;
}.

Record FirestoreFamily := {
  fam_name : string;
  fam_createdBy : string;
  fam_members : option (list string);
  fam_createdAt : option Z;
  fam_updatedAt : option Z;
}.

Record FirestoreInvite := {
  inv_familyId : string;
  inv_familyName : string;
  inv_invitedBy : string;
  inv_invitedEmail : option string;
  inv_createdAt : option Z;
  inv_expiresAt : option Z;
  inv_status : InviteStatus;
}.

Record Store := {
  users : gmap string FirestoreUser;
  families : gmap string FirestoreFamily;
  invites : gmap string FirestoreInvite;
}.

(** Field values of a write: a timestamp is given ([Timestamp.fromDate])
    or left to the server ([serverTimestamp()]); an array is given or
    extended ([arrayUnion(x)]). *)
Inductive TimeField := Timestamp (t : Z) | serverTimestamp.
Inductive ArrayField := arrayValue (l : list string) | arrayUnion (x : string).

(** The payload of [setDoc(inviteRef, inviteData)]. *)
Record InviteData := {
  data_familyId : string;
  data_familyName : string;
  data_invitedBy : string;
  data_createdAt : TimeField;
  data_expiresAt : TimeField;
  data_status : InviteStatus;
}.

(** The writes the services issue:
    - [setDoc(inviteRef, inviteData)];
    - [updateDoc(familyRef, {members, updatedAt: serverTimestamp()})];
    - [updateDoc(userRef, {families, updatedAt: serverTimestamp()})];
    - [updateDoc(inviteRef, {status})]. *)
Inductive Write :=
| setDoc_invite (ref : string) (data : InviteData)
| updateDoc_family (ref : string) (members : ArrayField)
| updateDoc_user (ref : string) (families : list string)
| updateDoc_invite (ref : string) (status : InviteStatus).

Definition resolveTime (serverTime : Z) (f : TimeField) : Z :=
  match f with Timestamp t => t | serverTimestamp => serverTime end.

(** [arrayUnion] adds the element unless the array holds it; on a field
    that is absent the array starts empty. *)
Definition resolveArray (old : option (list string)) (f : ArrayField)
  : list string :=
  match f with
  | arrayValue l => l
  | arrayUnion x =>
      let l := default [] old in
      if bool_decide (x ∈ l) then l else l ++ [x]
  end.

Definition storeInvite (serverTime : Z) (d : InviteData) : FirestoreInvite :=
  {| inv_familyId := data_familyId d;
     inv_familyName := data_familyName d;
     inv_invitedBy := data_invitedBy d;
     inv_invitedEmail := None;
     inv_createdAt := Some (resolveTime serverTime (data_createdAt d));
     inv_expiresAt := Some (resolveTime serverTime (data_expiresAt d));
     inv_status := data_status d |}.

Definition patchFamily (serverTime : Z) (members : ArrayField)
    (f : FirestoreFamily) : FirestoreFamily :=
  {| fam_name := fam_name f;
     fam_createdBy := fam_createdBy f;
     fam_members := Some (resolveArray (fam_members f) members);
     fam_createdAt := fam_createdAt f;
     fam_updatedAt := Some serverTime |}.

Definition patchUser (serverTime : Z) (fams : list string)
    (u : FirestoreUser) : FirestoreUser :=
  {| user_email := user_email u;
     user_displayName := user_displayName u;
     user_photoUrl := user_photoUrl u;
     user_families := Some fams;
     user_createdAt := user_createdAt u;
     user_updatedAt := Some serverTime |}.

Definition patchInvite (st : InviteStatus) (i : FirestoreInvite)
  : FirestoreInvite :=
  {| inv_familyId := inv_familyId i;
     inv_familyName := inv_familyName i;
     inv_invitedBy := inv_invitedBy i;
     inv_invitedEmail := inv_invitedEmail i;
     inv_createdAt := inv_createdAt i;
     inv_expiresAt := inv_expiresAt i;
     inv_status := st |}.

(** The store after a write committed at [serverTime]; [setDoc] creates
    or replaces, [updateDoc] fails ([None]) when there is no document to
    update. *)
Definition applyWrite (serverTime : Z) (w : Write) (s : Store)
  : option Store :=
  match w with
  | setDoc_invite ref d =>
      Some {| users := users s; families := families s;
              invites := <[ref := storeInvite serverTime d]> (invites s) |}
  | updateDoc_family ref members =>
      f ← families s !! ref;
      Some {| users := users s;
              families := <[ref := patchFamily serverTime members f]>
                            (families s);
              invites := invites s |}
  | updateDoc_user ref fams =>
      u ← users s !! ref;
      Some {| users := <[ref := patchUser serverTime fams u]> (users s);
              families := families s; invites := invites s |}
  | updateDoc_invite ref st =>
      i ← invites s !! ref;
      Some {| users := users s; families := families s;
              invites := <[ref := patchInvite st i]> (invites s) |}
  end.

End Firestore.

(** ** The services: src/services (firebase, auth-service, family-service) *)

Import Environment Firestore.

(** What a run of the program takes from outside: the configuration in
    [import.meta.env], the signed-in user of the auth provider
    ([auth.currentUser], by its [uid]), the successive readings of the
    client's clock ([new Date()]), the server's clock at each committed
    write ([serverTimestamp()]), the host's time zone, and the successive
    identifiers [generateId()] draws ([src/utils/helpers], a random
    UUID).  Firebase has been initialised: the getters of [firebase.ts]
    return their instances. *)
Record Runtime := {
  importMetaEnv : ImportMetaEnv;
  currentUser : option string;
  wallClock : nat → Z;
  serverClock : nat → Z;
  localTZA : Z → bool → Z;
  randomId : nat → string;
}.

(** The state a call runs in: the store, the writes committed so far, and
    how many clock readings and identifiers have been taken. *)
Record World := {
  store : Store;
  writes : list Write;
  dateReads : nat;
  idsDrawn : nat;
}.

(** An [async] function is a state transformer that completes with a value
    or a thrown error; a write that was committed before a [throw] stays
    committed.  Reads and writes of the store fail only where the store's
    contents make them fail ([updateDoc] on a missing document); the
    [console.error] lines of the [catch] blocks are not recorded. *)
Definition M (A : Type) : Type := World → result A * World.

#[global] Instance M_ret : MRet M := λ A v σ, (Ok v, σ).
#[global] Instance M_bind : MBind M := λ A B k m σ,
  match m σ with
  | (Ok v, σ') => k v σ'
  | (Err msg, σ') => (Err msg, σ')
  end.

Definition throw {A} (msg : string) : M A := λ σ, (Err msg, σ).

(** [try { body } catch (error) { handler }]. *)
Definition tryCatch {A} (body : M A) (handler : string → M A) : M A := λ σ,
  match body σ with
  | (Ok v, σ') => (Ok v, σ')
  | (Err msg, σ') => handler msg σ'
  end.

(** [Array.prototype.includes] on an array of strings. *)
Definition includes (l : list string) (x : string) : bool :=
  bool_decide (x ∈ l).

Section Services.
Context (rt : Runtime).

(** *** firebase.ts *)

(** [doc(db, getCollectionPath(collectionName), documentId)]: the
    reference is the document's path.  The checks the Firestore SDK makes
    on the segments of a path are not modelled. *)
Definition getDocRef (collectionName documentId : string) : string :=
  getCollectionPath (importMetaEnv rt) collectionName +:+ "/" +:+ documentId.

Definition newDate : M Z := λ σ,
  (Ok (wallClock rt (dateReads σ)),
   {| store := store σ; writes := writes σ;
      dateReads := S (dateReads σ); idsDrawn := idsDrawn σ |}).

Definition generateId : M string := λ σ,
  (Ok (randomId rt (idsDrawn σ)),
   {| store := store σ; writes := writes σ;
      dateReads := dateReads σ; idsDrawn := S (idsDrawn σ) |}).

(** [setDoc] and [updateDoc]: commit the write at the server's time. *)
Definition commit (w : Write) : M unit := λ σ,
  match applyWrite (serverClock rt (length (writes σ))) w (store σ) with
  | Some s' =>
      (Ok tt, {| store := s'; writes := writes σ ++ [w];
                 dateReads := dateReads σ; idsDrawn := idsDrawn σ |})
  | None => (Err "not-found", σ)
  end.

(** [getDoc(ref)], with [snap.exists()] and [snap.data()] as an option. *)
Definition getDoc_user (ref : string) : M (option FirestoreUser) :=
  λ σ, (Ok (users (store σ) !! ref), σ).
Definition getDoc_family (ref : string) : M (option FirestoreFamily) :=
  λ σ, (Ok (families (store σ) !! ref), σ).
Definition getDoc_invite (ref : string) : M (option FirestoreInvite) :=
  λ σ, (Ok (invites (store σ) !! ref), σ).

(** [ts?.toDate() || new Date()]: the clock is read only when the field
    is absent. *)
Definition toDateOrNow (ts : option Z) : M Z :=
  match ts with
  | Some t => mret t
  | None => newDate
  end.

(** *** auth-service.ts *)

Definition getCurrentAuthUser : option string := currentUser rt.

Definition addFamilyToUser (userId familyId : string) : M unit :=
  tryCatch
    (let userRef := getDocRef "users" userId in
     userSnap ← getDoc_user userRef;
     match userSnap with
     | None => throw "User not found"
     | Some userData =>
         let fams := default [] (user_families userData) in
         if negb (includes fams familyId)
         then commit (updateDoc_user userRef (fams ++ [familyId]))
         else mret tt
     end)
    (λ _, throw "Failed to add family").

(** *** family-service.ts *)

Record Family := {
  id : string;
  name : string;
  createdBy : string;
  members : list string;
  createdAt : Z;
  updatedAt : Z;
}.

Record FamilyInvite := {
  invite_id : string;
  familyId : string;
  familyName : string;
  invitedBy : string;
  invitedEmail : option string;
  invite_createdAt : Z;
  expiresAt : Z;
  status : InviteStatus;
}.

Definition convertFirestoreFamily (id : string) (data : FirestoreFamily)
  : M Family :=
  created ← toDateOrNow (fam_createdAt data);
  updated ← toDateOrNow (fam_updatedAt data);
  mret {| id := id;
          name := fam_name data;
          createdBy := fam_createdBy data;
          members := default [] (fam_members data);
          createdAt := created;
          updatedAt := updated |}.

Definition getFamilyById (familyId : string) : M (option Family) :=
  tryCatch
    (let familyRef := getDocRef "families" familyId in
     familySnap ← getDoc_family familyRef;
     match familySnap with
     | None => mret None
     | Some data => f ← convertFirestoreFamily familyId data; mret (Some f)
     end)
    (λ _, throw "Failed to fetch family").

Definition createFamilyInvite (familyId : string) : M FamilyInvite :=
  match getCurrentAuthUser with
  | None => throw "You must be logged in"
  | Some uid =>
    family ← getFamilyById familyId;
    match family with
    | None => throw "Family not found"
    | Some family =>
      if negb (includes (members family) uid)
      then throw "You are not a member of this family"
      else
        inviteId ← generateId;
        let inviteRef := getDocRef "invites" inviteId in
        today ← newDate;
        let expiresAt :=
          JSDate.setDate (localTZA rt) today
            (JSDate.getDate (localTZA rt) today + 7) in
        let inviteData :=
          {| data_familyId := familyId;
             data_familyName := name family;
             data_invitedBy := uid;
             data_createdAt := serverTimestamp;
             data_expiresAt := Timestamp expiresAt;
             data_status := pending |} in
        tryCatch
          (commit (setDoc_invite inviteRef inviteData);;
           created ← newDate;
           mret {| invite_id := inviteId;
                   familyId := familyId;
                   familyName := name family;
                   invitedBy := uid;
                   invitedEmail := None;
                   invite_createdAt := created;
                   expiresAt := expiresAt;
                   status := pending |})
          (λ _, throw "Failed to create invite")
    end
  end.

Definition getInvite (inviteId : string) : M (option FamilyInvite) :=
  tryCatch
    (let inviteRef := getDocRef "invites" inviteId in
     inviteSnap ← getDoc_invite inviteRef;
     match inviteSnap with
     | None => mret None
     | Some data =>
         created ← toDateOrNow (inv_createdAt data);
         expires ← toDateOrNow (inv_expiresAt data);
         mret (Some {| invite_id := inviteId;
                       familyId := inv_familyId data;
                       familyName := inv_familyName data;
                       invitedBy := inv_invitedBy data;
                       invitedEmail := inv_invitedEmail data;
                       invite_createdAt := created;
                       expiresAt := expires;
                       status := inv_status data |})
     end)
    (λ _, throw "Failed to fetch invite").

Definition acceptFamilyInvite (inviteId : string) : M Family :=
  match getCurrentAuthUser with
  | None => throw "You must be logged in to accept an invite"
  | Some uid =>
    invite ← getInvite inviteId;
    match invite with
    | None => throw "Invite not found"
    | Some invite =>
      if negb (bool_decide (status invite = pending))
      then throw "This invite has already been used or expired"
      else
        now ← newDate;
        if bool_decide (expiresAt invite < now)%Z
        then throw "This invite has expired"
        else
          family ← getFamilyById (familyId invite);
          match family with
          | None => throw "Family not found"
          | Some family =>
            if includes (members family) uid
            then throw "You are already a member of this family"
            else
              tryCatch
                (let familyRef := getDocRef "families" (familyId invite) in
                 commit (updateDoc_family familyRef (arrayUnion uid));;
                 addFamilyToUser uid (familyId invite);;
                 let inviteRef := getDocRef "invites" inviteId in
                 commit (updateDoc_invite inviteRef accepted);;
                 mret {| id := id family;
                         name := name family;
                         createdBy := createdBy family;
                         members := members family ++ [uid];
                         createdAt := createdAt family;
                         updatedAt := updatedAt family |})
                (λ _, throw "Failed to join family")
          end
    end
  end.

Definition removeFamilyMember (familyId memberId : string) : M unit :=
  match getCurrentAuthUser with
  | None => throw "You must be logged in"
  | Some uid =>
    family ← getFamilyById familyId;
    match family with
    | None => throw "Family not found"
    | Some family =>
      if negb (bool_decide (createdBy family = uid))
      then throw "Only the family admin can remove members"
      else if bool_decide (memberId = createdBy family)
      then throw "Cannot remove the family admin"
      else
        tryCatch
          (let familyRef := getDocRef "families" familyId in
           let updatedMembers :=
             filter (λ m, m ≠ memberId) (members family) in
           commit (updateDoc_family familyRef (arrayValue updatedMembers)))
          (λ _, throw "Failed to remove member")
    end
  end.

Definition leaveFamily (familyId : string) : M unit :=
  match getCurrentAuthUser with
  | None => throw "You must be logged in"
  | Some uid =>
    family ← getFamilyById familyId;
    match family with
    | None => throw "Family not found"
    | Some family =>
      if bool_decide (createdBy family = uid)
      then throw "Family admin cannot leave. Transfer ownership or delete the family."
      else
        tryCatch
          (let familyRef := getDocRef "families" familyId in
           let updatedMembers := filter (λ m, m ≠ uid) (members family) in
           commit (updateDoc_family familyRef (arrayValue updatedMembers)))
          (λ _, throw "Failed to leave family")
    end
  end.

End Services.

(** ** Sample configurations and stores

    The configurations of [src/test/setup.ts] and of the deployment guide,
    and the family of the specification's end-to-end scenario: user [u1]
    created the family [f1] and the invite [i1]; user [u2] is signed in. *)
Module Sample.
Import JSDate.

Definition envLocal : ImportMetaEnv :=
  {| VITE_APP_ENV := Some "local";
     VITE_USE_EMULATORS := Some "false";
     VITE_FIRESTORE_ROOT_PATH := Some "";
     VITE_FIREBASE_API_KEY := Some "test-api-key";
     VITE_FIREBASE_AUTH_DOMAIN := Some "test.firebaseapp.com";
     VITE_FIREBASE_PROJECT_ID := Some "test-project";
     VITE_FIREBASE_STORAGE_BUCKET := Some "test.appspot.com";
     VITE_FIREBASE_MESSAGING_SENDER_ID := Some "123456789";
     VITE_FIREBASE_APP_ID := Some "1:123456789:web:abc123" |}.

Definition envProduction : ImportMetaEnv :=
  {| VITE_APP_ENV := Some "production";
     VITE_USE_EMULATORS := None;
     VITE_FIRESTORE_ROOT_PATH := Some "environments/production";
     VITE_FIREBASE_API_KEY := Some "test-api-key";
     VITE_FIREBASE_AUTH_DOMAIN := Some "test.firebaseapp.com";
     VITE_FIREBASE_PROJECT_ID := Some "test-project";
     VITE_FIREBASE_STORAGE_BUCKET := Some "test.appspot.com";
     VITE_FIREBASE_MESSAGING_SENDER_ID := Some "123456789";
     VITE_FIREBASE_APP_ID := Some "1:123456789:web:abc123" |}.

(** The local mode with a root path set, which nothing forbids. *)
Definition envLocalPrefixed : ImportMetaEnv :=
  {| VITE_APP_ENV := Some "local";
     VITE_USE_EMULATORS := Some "false";
     VITE_FIRESTORE_ROOT_PATH := Some "environments/production";
     VITE_FIREBASE_API_KEY := Some "test-api-key";
     VITE_FIREBASE_AUTH_DOMAIN := Some "test.firebaseapp.com";
     VITE_FIREBASE_PROJECT_ID := Some "test-project";
     VITE_FIREBASE_STORAGE_BUCKET := Some "test.appspot.com";
     VITE_FIREBASE_MESSAGING_SENDER_ID := Some "123456789";
     VITE_FIREBASE_APP_ID := Some "1:123456789:web:abc123" |}.

(** Production with every credential, but no root path. *)
Definition envNoRootPath : ImportMetaEnv :=
  {| VITE_APP_ENV := Some "production";
     VITE_USE_EMULATORS := None;
     VITE_FIRESTORE_ROOT_PATH := None;
     VITE_FIREBASE_API_KEY := Some "test-api-key";
     VITE_FIREBASE_AUTH_DOMAIN := Some "test.firebaseapp.com";
     VITE_FIREBASE_PROJECT_ID := Some "test-project";
     VITE_FIREBASE_STORAGE_BUCKET := Some "test.appspot.com";
     VITE_FIREBASE_MESSAGING_SENDER_ID := Some "123456789";
     VITE_FIREBASE_APP_ID := Some "1:123456789:web:abc123" |}.

(** No credential at all, emulators off. *)
Definition envEmpty : ImportMetaEnv :=
  {| VITE_APP_ENV := None;
     VITE_USE_EMULATORS := None;
     VITE_FIRESTORE_ROOT_PATH := None;
     VITE_FIREBASE_API_KEY := None;
     VITE_FIREBASE_AUTH_DOMAIN := None;
     VITE_FIREBASE_PROJECT_ID := None;
     VITE_FIREBASE_STORAGE_BUCKET := None;
     VITE_FIREBASE_MESSAGING_SENDER_ID := None;
     VITE_FIREBASE_APP_ID := None |}.

(** 2024-10-25T10:00:00Z, which is noon in Berlin, and the end of summer
    time there two days later, 2024-10-27T01:00:00Z. *)
Definition noon : Z := 1729850400000.
Definition endOfSummerTime : Z := 1729990800000.

Definition runtime (user : option string) (tza : Z → bool → Z) : Runtime :=
  {| importMetaEnv := envProduction;
     currentUser := user;
     wallClock := λ _, noon;
     serverClock := λ _, noon;
     localTZA := tza;
     randomId := λ _, "i2" |}.

Definition utc : Z → bool → Z := fixedZone 0.
Definition berlin : Z → bool → Z := summerTimeEnds endOfSummerTime.

Definition profile (email : string) (fams : list string) : FirestoreUser :=
  {| user_email := email;
     user_displayName := email;
     user_photoUrl := None;
     user_families := Some fams;
     user_createdAt := Some 1700000000000%Z;
     user_updatedAt := Some 1700000000000%Z |}.

Definition smiths (membs : list string) : FirestoreFamily :=
  {| fam_name := "Smith Family";
     fam_createdBy := "u1";
     fam_members := Some membs;
     fam_createdAt := Some 1700000000000%Z;
     fam_updatedAt := Some 1700000000000%Z |}.

Definition invitation (st : InviteStatus) (expires : Z) : FirestoreInvite :=
  {| inv_familyId := "f1";
     inv_familyName := "Smith Family";
     inv_invitedBy := "u1";
     inv_invitedEmail := None;
     inv_createdAt := Some (noon - 1000)%Z;
     inv_expiresAt := Some expires;
     inv_status := st |}.

Definition world (us : list (string * FirestoreUser))
    (membs : list string) (inv : FirestoreInvite) : World :=
  {| store :=
       {| users := list_to_map us;
          families := {[ "environments/production/families/f1" := smiths membs ]};
          invites := {[ "environments/production/invites/i1" := inv ]} |};
     writes := [];
     dateReads := 0;
     idsDrawn := 0 |}.

Definition u1doc := ("environments/production/users/u1", profile "a@x.org" ["f1"]).
Definition u2doc := ("environments/production/users/u2", profile "b@x.org" []).
(** [u2] after having been removed from [f1]: the family is still listed. *)
Definition u2removed := ("environments/production/users/u2", profile "b@x.org" ["f1"]).

Definition pendingInvite : FirestoreInvite :=
  invitation pending (noon + 7 * msPerDay)%Z.

(** The scenario before [u2] accepts. *)
Definition invited : World := world [u1doc; u2doc] ["u1"] pendingInvite.
(** The same, but [u2] has no user document. *)
Definition invitedNoProfile : World := world [u1doc] ["u1"] pendingInvite.
(** [u2] is a member. *)
Definition joined : World :=
  world [u1doc; u2removed] ["u1"; "u2"] (invitation accepted (noon + 7 * msPerDay)%Z).

End Sample.

(** ** More of the services

    The rest of the read paths and the pure helpers of [firebase.ts],
    [auth-service.ts] and [family-service.ts], and the guards of the
    pages that call them. *)

(** *** Queries over a collection *)

(** The documents of the collection at path [coll] are those whose path
    is [coll], a slash, and an id; a query returns them in the order of
    their ids. *)
Fixpoint stripPrefix (p s : string) : option string :=
  match p, s with
  | EmptyString, _ => Some s
  | String a p', String b s' =>
      if bool_decide (a = b) then stripPrefix p' s' else None
  | String _ _, EmptyString => None
  end.

Definition slash : Ascii.ascii := Ascii.ascii_of_nat 47.

Fixpoint hasSlash (s : string) : bool :=
  match s with
  | EmptyString => false
  | String a s' => bool_decide (a = slash) || hasSlash s'
  end.

(** An id is one segment of a path: not empty, and without a slash. *)
Definition validDocumentId (docId : string) : bool :=
  negb (bool_decide (docId = "")) && negb (hasSlash docId).

Definition documentIdIn (coll key : string) : option string :=
  docId ← stripPrefix (coll +:+ "/") key;
  if validDocumentId docId then Some docId else None.

Definition collectionDocs {D : Type} (coll : string) (docs : gmap string D)
  : list (string * D) :=
  merge_sort (λ x y, String.le x.1 y.1)
    (omap (λ kd, docId ← documentIdIn coll kd.1; Some (docId, kd.2))
          (map_to_list docs)).

Section MoreServices.
Context (rt : Runtime).

(** *** firebase.ts *)

(** [collection(db, getCollectionPath(collectionName))], by its path. *)
Definition getCollectionRef (collectionName : string) : string :=
  getCollectionPath (importMetaEnv rt) collectionName.

(** [getStorageRef(path)], up to its call of [ref]: the [fullPath] it
    passes to [ref(storage, fullPath)].  What the storage SDK makes of
    that string is not modelled.  Two calls that pass the same string get
    the same reference; the SDK may also give one reference for two
    different strings, so nothing is inferred from two of them being
    different. *)
Definition getStorageRef (path : string) : string :=
  let config := getEnvironmentConfig (importMetaEnv rt) in
  let fullPath :=
    if negb (falsy (firestoreRootPath config))
    then firestoreRootPath config +:+ "/" +:+ path
    else path in
  fullPath.

(** [getDocs(query(familiesRef, where('members', 'array-contains', uid)))]:
    the ids and the data of the matching documents. *)
Definition getDocs_families_with_member (familiesRef uid : string)
  : M (list (string * FirestoreFamily)) :=
  λ σ, (Ok (filter (λ doc, uid ∈ default [] (fam_members doc.2))
                   (collectionDocs familiesRef (families (store σ)))),
        σ).

(** *** auth-service.ts *)

Record User := {
  usr_id : string;
  usr_email : string;
  usr_displayName : string;
  usr_photoUrl : option string;
  usr_families : list string;
  usr_createdAt : Z;
  usr_updatedAt : Z;
}.

Definition convertFirestoreUser (userId : string) (data : FirestoreUser)
  : M User :=
  created ← toDateOrNow rt (user_createdAt data);
  updated ← toDateOrNow rt (user_updatedAt data);
  mret {| usr_id := userId;
          usr_email := user_email data;
          usr_displayName := user_displayName data;
          usr_photoUrl := user_photoUrl data;
          usr_families := default [] (user_families data);
          usr_createdAt := created;
          usr_updatedAt := updated |}.

Definition getUserById (userId : string) : M (option User) :=
  tryCatch
    (let userRef := getDocRef rt "users" userId in
     userSnap ← getDoc_user userRef;
     match userSnap with
     | None => mret None
     | Some data => u ← convertFirestoreUser userId data; mret (Some u)
     end)
    (λ _, throw "Failed to fetch user data").

Definition getCurrentUser : M (option User) :=
  match getCurrentAuthUser rt with
  | None => mret None
  | Some uid => getUserById uid
  end.

(** [onAuthStateChange(callback)]: what the listener passes to [callback]
    when the auth provider reports [firebaseUser] (by its [uid]). *)
Definition onAuthStateChange (firebaseUser : option string) : M (option User) :=
  match firebaseUser with
  | Some uid => tryCatch (getUserById uid) (λ _, mret None)
  | None => mret None
  end.

(** *** family-service.ts *)

Inductive MemberRole := admin | member.

#[global] Instance MemberRole_eq_dec : EqDecision MemberRole.
Proof. solve_decision. Defined.

Record FamilyMember := {
  member_id : string;
  member_displayName : string;
  member_email : string;
  member_photoUrl : option string;
  role : MemberRole;
}.

(** [{...family, memberDetails}]. *)
Record FamilyWithMembers := {
  family_of : Family;
  memberDetails : list FamilyMember;
}.

(** The callback of [family.members.map]. The reads of [Promise.all] only
    read the store, and what they return does not depend on the clock;
    they are run here in the order of the array. *)
Definition memberDetail (family : Family) (memberId : string)
  : M FamilyMember :=
  user ← getUserById memberId;
  mret {| member_id := memberId;
          member_displayName :=
            match user with
            | Some u => if falsy (usr_displayName u) then "Unknown"
                        else usr_displayName u
            | None => "Unknown"
            end;
          member_email :=
            match user with Some u => usr_email u | None => "" end;
          member_photoUrl := user ≫= usr_photoUrl;
          role := if bool_decide (memberId = createdBy family)
                  then admin else member |}.

Definition getFamilyWithMembers (familyId : string)
  : M (option FamilyWithMembers) :=
  family ← getFamilyById rt familyId;
  match family with
  | None => mret None
  | Some family =>
      details ← mapM (memberDetail family) (members family);
      mret (Some {| family_of := family; memberDetails := details |})
  end.

Definition getUserFamilies : M (list Family) :=
  match getCurrentAuthUser rt with
  | None => mret []
  | Some uid =>
      tryCatch
        (let familiesRef := getCollectionRef "families" in
         docs ← getDocs_families_with_member familiesRef uid;
         mapM (λ doc, convertFirestoreFamily rt doc.1 doc.2) docs)
        (λ _, throw "Failed to fetch families")
  end.

End MoreServices.

(** [generateInviteUrl(inviteId)], with [window.location.origin] as
    [origin]. *)
Definition generateInviteUrl (origin inviteId : string) : string :=
  origin +:+ "/invite/" +:+ inviteId.

(** [getAuthErrorMessage(errorCode)].  [errorMessages] is an object
    literal, so [errorMessages[errorCode]] also finds the properties every
    object inherits from [Object.prototype]; such a value is not a string
    and is truthy, and the function returns it as it is. *)
Inductive JSValue := JSString (s : string) | Inherited (key : string).

Definition errorMessages : list (string * string) :=
  [ ("auth/email-already-in-use",
     "This email is already registered. Please log in or use a different email.");
    ("auth/invalid-email", "Please enter a valid email address.");
    ("auth/operation-not-allowed", "Email/password sign up is not enabled.");
    ("auth/weak-password",
     "Password is too weak. Please use at least 6 characters.");
    ("auth/user-disabled",
     "This account has been disabled. Please contact support.");
    ("auth/user-not-found",
     "No account found with this email. Please sign up.");
    ("auth/wrong-password", "Incorrect password. Please try again.");
    ("auth/invalid-credential",
     "Invalid email or password. Please try again.");
    ("auth/too-many-requests",
     "Too many failed attempts. Please try again later.");
    ("auth/network-request-failed",
     "Network error. Please check your connection.") ].

Definition objectPrototypeKeys : list string :=
  [ "constructor"; "hasOwnProperty"; "isPrototypeOf"; "propertyIsEnumerable";
    "toLocaleString"; "toString"; "valueOf"; "__proto__";
    "__defineGetter__"; "__defineSetter__"; "__lookupGetter__";
    "__lookupSetter__" ].

Definition unexpectedError : string :=
  "An unexpected error occurred. Please try again.".

Definition getAuthErrorMessage (errorCode : string) : JSValue :=
  match (list_to_map errorMessages : gmap string string) !! errorCode with
  | Some message =>
      if falsy message then JSString unexpectedError else JSString message
  | None =>
      if bool_decide (errorCode ∈ objectPrototypeKeys)
      then Inherited errorCode
      else JSString unexpectedError
  end.

(** ** The pages *)

(** *** family-page.ts *)

(** [isAdmin(family)], for the page's [user]. *)
Definition isAdmin (user : option User) (family : Family) : bool :=
  match user with
  | Some u => bool_decide (createdBy family = usr_id u)
  | None => false
  end.

(** The conditions under which [renderFamilyDetail] puts the Leave button
    in the header and the Remove button beside a member. *)
Definition leaveButtonShown (user : option User) (selected : FamilyWithMembers)
  : bool :=
  negb (isAdmin user (family_of selected)).

Definition removeButtonShown (user : option User)
    (selected : FamilyWithMembers) (m : FamilyMember) : bool :=
  isAdmin user (family_of selected)
  && negb (bool_decide (role m = admin)).

(** *** app-shell.ts *)

Record AppShell := {
  isLoading : bool;
  shell_currentUser : option User;
  currentRoute : string;
  selectedFamilyId : option string;
}.

(** [navigateTo(route)]; for a route that is not empty the [hashchange]
    listener then stores the same route again. *)
Definition navigateTo (route : string) (s : AppShell) : AppShell :=
  {| isLoading := isLoading s;
     shell_currentUser := shell_currentUser s;
     currentRoute := route;
     selectedFamilyId := selectedFamilyId s |}.

Definition onAuthPage (s : AppShell) : bool :=
  bool_decide (currentRoute s = "login")
  || bool_decide (currentRoute s = "signup").

(** [!this.selectedFamilyId]. *)
Definition noFamilySelected (s : AppShell) : bool :=
  match selectedFamilyId s with
  | None => true
  | Some f => falsy f
  end.

(** The callback [initializeApp] passes to [onAuthStateChange]. *)
Definition authStateChanged (user : option User) (s : AppShell) : AppShell :=
  let s1 := {| isLoading := false;
               shell_currentUser := user;
               currentRoute := currentRoute s;
               selectedFamilyId := selectedFamilyId s |} in
  match user with
  | Some u =>
      let s2 := if onAuthPage s1 then navigateTo "dashboard" s1 else s1 in
      match usr_families u with
      | first :: _ =>
          if noFamilySelected s2
          then {| isLoading := isLoading s2;
                  shell_currentUser := shell_currentUser s2;
                  currentRoute := currentRoute s2;
                  selectedFamilyId := Some first |}
          else s2
      | [] => s2
      end
  | None =>
      if negb (onAuthPage s1) then navigateTo "login" s1 else s1
  end.

Definition handleLogout (s : AppShell) : AppShell :=
  navigateTo "login"
    {| isLoading := isLoading s;
       shell_currentUser := None;
       currentRoute := currentRoute s;
       selectedFamilyId := None |}.

(** ** Vocabulary of the properties *)

(** The two settings whose absence [validateEnvironmentConfig] reports:
    the API key, unless the emulators are in use, and the project id; and
    the setting whose absence it warns about. *)
Definition apiKeyMissing (e : ImportMetaEnv) : Prop :=
  or_empty (VITE_FIREBASE_API_KEY e) = "" ∧
  VITE_USE_EMULATORS e ≠ Some "true".

Definition projectIdMissing (e : ImportMetaEnv) : Prop :=
  or_empty (VITE_FIREBASE_PROJECT_ID e) = "".

Definition rootPathMissing (e : ImportMetaEnv) : Prop :=
  getAppEnvironment e ≠ local ∧ getFirestoreRootPath e = "".

(** A step that reads the store, and perhaps the clock, but writes
    nothing. *)
Definition readOnly (σ σ' : World) : Prop :=
  store σ' = store σ ∧ writes σ' = writes σ ∧ idsDrawn σ' = idsDrawn σ.

(** The messages with which the member operations reject the caller or
    the operation attempted (the authorization errors of the
    specification's taxonomy). *)
Definition authorizationError (msg : string) : Prop :=
  msg ∈ [ "You must be logged in";
          "Only the family admin can remove members";
          "Cannot remove the family admin";
          "Family admin cannot leave. Transfer ownership or delete the family." ].



(** What [getFamilyWithMembers] says about one member, given the store
    it read. *)
Definition describes (rt : Runtime) (σ : World) (creator : string)
    (memberId : string) (m : FamilyMember) : Prop :=
  member_id m = memberId ∧
  (role m = admin ↔ memberId = creator) ∧
  match users (store σ) !! getDocRef rt "users" memberId with
  | Some u =>
      member_email m = user_email u ∧
      member_photoUrl m = user_photoUrl u ∧
      member_displayName m
      = (if falsy (user_displayName u) then "Unknown" else user_displayName u)
  | None =>
      member_email m = "" ∧ member_photoUrl m = None ∧
      member_displayName m = "Unknown"
  end.

(** The number of the clock read with which [getInvite] fills in an
    [expiresAt] the document lacks: one more when it fills in [createdAt]
    too. *)
Definition clockReadsBeforeExpiry (σ : World) (data : FirestoreInvite) : nat :=
  match inv_createdAt data with
  | Some _ => dateReads σ
  | None => S (dateReads σ)
  end.

(** A runtime whose clock advances by a millisecond with every read, and
    a store whose invite has no [expiresAt]. *)
Definition tickingRuntime (user : option string) : Runtime :=
  {| importMetaEnv := Sample.envProduction;
     currentUser := user;
     wallClock := λ n, (Sample.noon + Z.of_nat n)%Z;
     serverClock := λ _, Sample.noon;
     localTZA := Sample.utc;
     randomId := λ _, "i2" |}.

Definition openEnded : World :=
  Sample.world [Sample.u1doc; Sample.u2doc] ["u1"]
    {| inv_familyId := "f1";
       inv_familyName := "Smith Family";
       inv_invitedBy := "u1";
       inv_invitedEmail := None;
       inv_createdAt := Some (Sample.noon - 1000)%Z;
       inv_expiresAt := None;
       inv_status := pending |}.

(** What [getUserFamilies] says about a family it returns for the user
    [uid], given the store it read. *)
Definition listed (rt : Runtime) (σ : World) (uid : string) (f : Family)
  : Prop :=
  validDocumentId (id f) = true ∧
  ∃ data,
    families (store σ) !! getDocRef rt "families" (id f) = Some data ∧
    (uid ∈ default [] (fam_members data)) ∧
    name f = fam_name data ∧
    createdBy f = fam_createdBy data ∧
    members f = default [] (fam_members data).

(** ** Tactics for the app shell

    The shell's callbacks branch on the route and on the selected family;
    these decide the comparisons of a route with a route name. *)
Ltac shell_step :=
  cbn [orb negb isLoading shell_currentUser currentRoute selectedFamilyId];
  repeat match goal with
  | H : falsy ?x = _ |- context [falsy ?x] => rewrite H
  | |- context [bool_decide (?a = ?b)] =>
      first [ rewrite (bool_decide_eq_true_2 (a = b)) by reflexivity
            | rewrite (bool_decide_eq_false_2 (a = b))
                by (discriminate || assumption) ]
  end;
  cbn [orb negb isLoading shell_currentUser currentRoute selectedFamilyId].

Ltac shell_cases r sel :=
  (destruct (decide (r = "login")) as [->|?];
   [|destruct (decide (r = "signup")) as [->|?]]);
  (destruct sel as [?f|]; [destruct (falsy f) eqn:?|]);
  repeat match goal with
  | |- context [falsy ?x] =>
      lazymatch goal with
      | H : falsy x = _ |- _ => fail
      | _ => destruct (falsy x) eqn:?
      end
  end;
  do 4 shell_step.

(** * Properties *)

(** ** Strings *)

Lemma app_cons a s t : String a s +:+ t = String a (s +:+ t).
Proof. reflexivity. Qed.

Lemma app_assoc_string s t u : (s +:+ t) +:+ u = s +:+ t +:+ u.
Proof.
  induction s as [|a s IH]; [reflexivity|].
  by rewrite !app_cons, IH.
Qed.

Lemma length_app_string s t :
  String.length (s +:+ t) = (String.length s + String.length t)%nat.
Proof.
  induction s as [|a s IH]; [reflexivity|].
  rewrite app_cons. cbn [String.length]. by rewrite IH.
Qed.

(** ** The path resolver *)
Section PathResolver.
Context (e : ImportMetaEnv).

Lemma getCollectionPath_unprefixed c :
  getFirestoreRootPath e = "" → getCollectionPath e c = c.
Proof. unfold getCollectionPath, falsy. intros ->. done. Qed.

Lemma getCollectionPath_prefixed c :
  getFirestoreRootPath e ≠ "" →
  getCollectionPath e c = getFirestoreRootPath e +:+ "/" +:+ c.
Proof.
  unfold getCollectionPath, falsy. intros H.
  by rewrite bool_decide_eq_false_2.
Qed.

(** Distinct collection names and distinct document ids resolve to
    distinct paths. *)
Lemma getCollectionPath_inj c1 c2 :
  getCollectionPath e c1 = getCollectionPath e c2 → c1 = c2.
Proof.
  unfold getCollectionPath. destruct (falsy _); [done|].
  intros H. by do 2 apply String.app_inj in H.
Qed.

Lemma getDocumentPath_inj c d1 d2 :
  getDocumentPath e c d1 = getDocumentPath e c d2 → d1 = d2.
Proof.
  unfold getDocumentPath. intros H. by do 2 apply String.app_inj in H.
Qed.
End PathResolver.

(** The expectations of [src/utils/environment.test.ts]. *)
Example getCollectionPath_local :
  getCollectionPath Sample.envLocal "users" = "users".
Proof. reflexivity. Qed.

Example getCollectionPath_production :
  getCollectionPath Sample.envProduction "expenses"
  = "environments/production/expenses".
Proof. reflexivity. Qed.

Example getDocumentPath_production :
  getDocumentPath Sample.envProduction "users" "user123"
  = "environments/production/users/user123".
Proof. reflexivity. Qed.

(** The prefix is read from [VITE_FIRESTORE_ROOT_PATH] and from nothing
    else. *)
Lemma getCollectionPath_by_setting (e : ImportMetaEnv) (c : string) :
  getCollectionPath e c
  = match VITE_FIRESTORE_ROOT_PATH e with
    | Some rootPrefix =>
        if bool_decide (rootPrefix = "") then c else rootPrefix +:+ "/" +:+ c
    | None => c
    end.
Proof.
  unfold getCollectionPath, getFirestoreRootPath, or_empty, falsy.
  by destruct (VITE_FIRESTORE_ROOT_PATH e).
Qed.

(** A prefixed path is longer than the name, so only an empty root path
    leaves the name as it is. *)
Lemma getCollectionPath_same_name (e : ImportMetaEnv) (c : string) :
  getCollectionPath e c = c → getFirestoreRootPath e = "".
Proof.
  unfold getCollectionPath, falsy. case_bool_decide as Hroot; [done|].
  intros H. apply (f_equal String.length) in H.
  rewrite !length_app_string in H. cbn in H. lia.
Qed.

(** C5, as the code has it.  For non-empty [c] and [d],
    [getDocumentPath(c, d)] is [getCollectionPath(c)], a slash, and [d];
    and [getCollectionPath(c)] is [c] itself when the configured root
    prefix, [VITE_FIRESTORE_ROOT_PATH], is unset or empty, and the root
    prefix, a slash, and [c] otherwise.  The prefix depends on that setting
    alone: two configurations that agree on it resolve alike, whatever
    their modes, and the path is the unprefixed name only when the root
    prefix is empty, in local mode as in any other. *)
Theorem getDocumentPath_composes (e : ImportMetaEnv) (c d : string) :
  c ≠ "" → d ≠ "" →
  getDocumentPath e c d = getCollectionPath e c +:+ "/" +:+ d ∧
  getCollectionPath e c
  = match VITE_FIRESTORE_ROOT_PATH e with
    | Some rootPrefix =>
        if bool_decide (rootPrefix = "") then c else rootPrefix +:+ "/" +:+ c
    | None => c
    end ∧
  (getFirestoreRootPath e = "" → getCollectionPath e c = c) ∧
  (getFirestoreRootPath e ≠ "" →
   getCollectionPath e c = getFirestoreRootPath e +:+ "/" +:+ c) ∧
  (getCollectionPath e c = c → getFirestoreRootPath e = "") ∧
  (∀ e', VITE_FIRESTORE_ROOT_PATH e' = VITE_FIRESTORE_ROOT_PATH e →
         getCollectionPath e' c = getCollectionPath e c ∧
         getDocumentPath e' c d = getDocumentPath e c d).
Proof.
  intros _ _. split; [reflexivity|].
  split; [apply getCollectionPath_by_setting|].
  split; [apply getCollectionPath_unprefixed|].
  split; [apply getCollectionPath_prefixed|].
  split; [apply getCollectionPath_same_name|].
  intros e' Hsame.
  assert (Hc : getCollectionPath e' c = getCollectionPath e c)
    by (by rewrite !getCollectionPath_by_setting, Hsame).
  split; [exact Hc|]. unfold getDocumentPath. by rewrite Hc.
Qed.

Lemma getDocumentPath_composes_witness :
  "users" ≠ "" ∧ "u1" ≠ "" ∧
  getDocumentPath Sample.envProduction "users" "u1"
  = getCollectionPath Sample.envProduction "users" +:+ "/" +:+ "u1" ∧
  getCollectionPath Sample.envProduction "users"
  = "environments/production" +:+ "/" +:+ "users" ∧
  getDocumentPath Sample.envLocalPrefixed "users" "u1"
  = getDocumentPath Sample.envProduction "users" "u1".
Proof.
  assert (Hc : "users" ≠ "") by discriminate.
  assert (Hd : "u1" ≠ "") by discriminate.
  destruct (getDocumentPath_composes Sample.envProduction "users" "u1" Hc Hd)
    as (Hdoc & Hcoll & _ & _ & _ & Hsame).
  split; [exact Hc|]. split; [exact Hd|]. split; [exact Hdoc|].
  split; [exact Hcoll|].
  exact (proj2 (Hsame Sample.envLocalPrefixed eq_refl)).
Defined.

(** C5 fails as stated: a configuration can be in local mode and have a
    root path set; it passes [validateEnvironmentConfig] without a
    warning, and its paths are prefixed. *)
Lemma local_mode_with_a_root_path_is_prefixed :
  isLocalEnvironment Sample.envLocalPrefixed = true ∧
  validateEnvironmentConfig Sample.envLocalPrefixed = ([], Ok tt) ∧
  getCollectionPath Sample.envLocalPrefixed "users"
  = "environments/production/users" ∧
  getCollectionPath Sample.envLocalPrefixed "users" ≠ "users" ∧
  getDocumentPath Sample.envLocalPrefixed "users" "u1"
  = "environments/production/users/u1".
Proof.
  split; [reflexivity|]. split; [reflexivity|]. split; [reflexivity|].
  split; [discriminate|reflexivity].
Qed.

(** C9, as the code has it. [getDocumentPath(c, "")] does not fail: it
    returns the collection path followed by a slash, a string that is the
    path of no document with a non-empty id in that collection. *)
Theorem getDocumentPath_empty_id (e : ImportMetaEnv) (c : string) :
  getDocumentPath_call e c "" = Ok (getCollectionPath e c +:+ "/") ∧
  ¬ throws (getDocumentPath_call e c "") ∧
  ∀ d, getDocumentPath e c d = getCollectionPath e c +:+ "/" → d = "".
Proof.
  split; [reflexivity|]. split.
  - intros [msg H]. discriminate H.
  - intros d H. apply (getDocumentPath_inj e c). exact H.
Qed.

(** C9 fails as stated: with an empty document id the call returns the
    string ["users/"] and throws nothing. *)
Lemma empty_document_id_returns_a_path :
  getDocumentPath_call Sample.envLocal "users" "" = Ok "users/" ∧
  ¬ throws (getDocumentPath_call Sample.envLocal "users" "").
Proof.
  split; [reflexivity|]. intros [msg H]. discriminate H.
Qed.

(** ** Validation of the configuration *)

Lemma falsy_true s : falsy s = true ↔ s = "".
Proof. unfold falsy. by rewrite bool_decide_eq_true. Qed.

Lemma falsy_false s : falsy s = false ↔ s ≠ "".
Proof. unfold falsy. by rewrite bool_decide_eq_false. Qed.

Lemma configErrors_apiKey (e : ImportMetaEnv) :
  falsy (apiKey (firebase (getEnvironmentConfig e)))
  && negb (cfg_useEmulators (getEnvironmentConfig e)) = true
  ↔ apiKeyMissing e.
Proof.
  unfold apiKeyMissing. cbn. unfold useEmulators.
  rewrite andb_true_iff, falsy_true, negb_true_iff, bool_decide_eq_false.
  done.
Qed.

Lemma configErrors_projectId (e : ImportMetaEnv) :
  falsy (projectId (firebase (getEnvironmentConfig e))) = true
  ↔ projectIdMissing e.
Proof. unfold projectIdMissing. cbn. apply falsy_true. Qed.

Lemma validateEnvironmentConfig_warns (e : ImportMetaEnv) :
  (rootPathMissing e →
   (validateEnvironmentConfig e).1 = [rootPathWarning]) ∧
  (¬ rootPathMissing e → (validateEnvironmentConfig e).1 = []).
Proof.
  unfold validateEnvironmentConfig, configWarnings, rootPathMissing.
  cbn [fst appEnv firestoreRootPath getEnvironmentConfig].
  destruct (bool_decide (getAppEnvironment e = local)) eqn:EL;
    destruct (falsy (getFirestoreRootPath e)) eqn:ER; cbn [negb andb];
    split; try reflexivity; intros H; exfalso.
  - apply bool_decide_eq_true in EL. by destruct H.
  - apply bool_decide_eq_true in EL. by destruct H.
  - apply H. split; [by apply bool_decide_eq_false in EL|by apply falsy_true].
  - apply falsy_false in ER. by destruct H.
Qed.

(** C6, as the code has it. [validateEnvironmentConfig] throws exactly
    when the API key is missing while the emulators are not in use, or the
    project id is missing; the one error it throws lists every missing
    item on a line of its own.  A root path that is missing outside the
    local environment is only warned about: it neither causes nor changes
    the error. *)
Theorem validateEnvironmentConfig_aggregates (e : ImportMetaEnv) :
  let r := (validateEnvironmentConfig e).2 in
  (apiKeyMissing e → projectIdMissing e →
   r = Err ("Environment configuration errors:" +:+ newline +:+
            "  - VITE_FIREBASE_API_KEY is required" +:+ newline +:+
            "  - VITE_FIREBASE_PROJECT_ID is required")) ∧
  (apiKeyMissing e → ¬ projectIdMissing e →
   r = Err ("Environment configuration errors:" +:+ newline +:+
            "  - VITE_FIREBASE_API_KEY is required")) ∧
  (¬ apiKeyMissing e → projectIdMissing e →
   r = Err ("Environment configuration errors:" +:+ newline +:+
            "  - VITE_FIREBASE_PROJECT_ID is required")) ∧
  (¬ apiKeyMissing e → ¬ projectIdMissing e → r = Ok tt) ∧
  (rootPathMissing e →
   (validateEnvironmentConfig e).1 = [rootPathWarning]) ∧
  (¬ rootPathMissing e → (validateEnvironmentConfig e).1 = []).
Proof.
  cbn zeta. split_and!; try apply validateEnvironmentConfig_warns.
  all: intros A P; unfold validateEnvironmentConfig; cbn [snd];
    unfold configErrors.
  all: rewrite <- configErrors_apiKey in A;
    rewrite <- configErrors_projectId in P.
  all: try apply not_true_is_false in A; try apply not_true_is_false in P.
  all: by rewrite A, P.
Qed.

Lemma validateEnvironmentConfig_aggregates_witness :
  apiKeyMissing Sample.envEmpty ∧ projectIdMissing Sample.envEmpty ∧
  (validateEnvironmentConfig Sample.envEmpty).2
  = Err ("Environment configuration errors:" +:+ newline +:+
         "  - VITE_FIREBASE_API_KEY is required" +:+ newline +:+
         "  - VITE_FIREBASE_PROJECT_ID is required").
Proof.
  assert (A : apiKeyMissing Sample.envEmpty) by (split; done).
  assert (P : projectIdMissing Sample.envEmpty) by reflexivity.
  split; [exact A|]. split; [exact P|].
  exact (proj1 (validateEnvironmentConfig_aggregates Sample.envEmpty) A P).
Defined.

(** C6 fails as stated: in production, with every credential set and no
    root path, validation warns and returns; it throws nothing. *)
Lemma validateEnvironmentConfig_root_path_unset :
  rootPathMissing Sample.envNoRootPath ∧
  validateEnvironmentConfig Sample.envNoRootPath = ([rootPathWarning], Ok tt) ∧
  ¬ throws (validateEnvironmentConfig Sample.envNoRootPath).2.
Proof.
  split; [split; done|]. split; [reflexivity|].
  intros [msg H]. discriminate H.
Qed.

(** ** The services *)
Section ServiceFacts.
Context (rt : Runtime).

Lemma readOnly_refl σ : readOnly σ σ.
Proof. done. Qed.

Lemma readOnly_trans σ1 σ2 σ3 :
  readOnly σ1 σ2 → readOnly σ2 σ3 → readOnly σ1 σ3.
Proof. unfold readOnly. intuition congruence. Qed.

Lemma getDocRef_inj c d1 d2 :
  getDocRef rt c d1 = getDocRef rt c d2 → d1 = d2.
Proof. apply getDocumentPath_inj. Qed.

(** [getDocRef] addresses the document at [getDocumentPath]. *)
Lemma getDocRef_path c d :
  getDocRef rt c d = getDocumentPath (importMetaEnv rt) c d.
Proof. reflexivity. Qed.

Lemma newDate_run σ :
  ∃ σ1, newDate rt σ = (Ok (wallClock rt (dateReads σ)), σ1) ∧
        readOnly σ σ1.
Proof. eexists. split; [reflexivity|done]. Qed.

Lemma toDateOrNow_run ts σ :
  ∃ t σ1, toDateOrNow rt ts σ = (Ok t, σ1) ∧ readOnly σ σ1 ∧
          (∀ t0, ts = Some t0 → t = t0 ∧ σ1 = σ).
Proof.
  destruct ts as [t|]; cbn; eexists _, _;
    (split; [reflexivity|]); (split; [done|]); intros t0 [=]; by subst.
Qed.

(** *** Reading a family *)

Lemma getFamilyById_None fid σ :
  families (store σ) !! getDocRef rt "families" fid = None →
  getFamilyById rt fid σ = (Ok None, σ).
Proof.
  intros H. unfold getFamilyById, tryCatch, mbind, M_bind, getDoc_family.
  by rewrite H.
Qed.

Lemma getFamilyById_Some fid σ data :
  families (store σ) !! getDocRef rt "families" fid = Some data →
  ∃ family σ1,
    getFamilyById rt fid σ = (Ok (Some family), σ1) ∧ readOnly σ σ1 ∧
    id family = fid ∧ name family = fam_name data ∧
    createdBy family = fam_createdBy data ∧
    members family = default [] (fam_members data).
Proof.
  intros H. unfold getFamilyById, tryCatch, mbind, M_bind, getDoc_family.
  rewrite H. unfold convertFirestoreFamily, mbind, M_bind.
  destruct (toDateOrNow_run (fam_createdAt data) σ)
    as (t1 & σ1 & -> & R1 & _).
  destruct (toDateOrNow_run (fam_updatedAt data) σ1)
    as (t2 & σ2 & -> & R2 & _).
  cbn. eexists _, _. split; [reflexivity|].
  split; [by eapply readOnly_trans|done].
Qed.

(** *** Reading an invite *)

Lemma getInvite_None iid σ :
  invites (store σ) !! getDocRef rt "invites" iid = None →
  getInvite rt iid σ = (Ok None, σ).
Proof.
  intros H. unfold getInvite, tryCatch, mbind, M_bind, getDoc_invite.
  by rewrite H.
Qed.

Lemma getInvite_Some iid σ data :
  invites (store σ) !! getDocRef rt "invites" iid = Some data →
  ∃ invite σ1,
    getInvite rt iid σ = (Ok (Some invite), σ1) ∧ readOnly σ σ1 ∧
    invite_id invite = iid ∧ familyId invite = inv_familyId data ∧
    status invite = inv_status data ∧
    (∀ t, inv_expiresAt data = Some t → expiresAt invite = t).
Proof.
  intros H. unfold getInvite, tryCatch, mbind, M_bind, getDoc_invite.
  rewrite H.
  destruct (toDateOrNow_run (inv_createdAt data) σ)
    as (t1 & σ1 & -> & R1 & _).
  destruct (toDateOrNow_run (inv_expiresAt data) σ1)
    as (t2 & σ2 & -> & R2 & E2).
  cbn. eexists _, _. split; [reflexivity|].
  split; [by eapply readOnly_trans|]. repeat split.
  intros t Ht. by apply E2.
Qed.

(** What a returned invite says about the stored one. *)
Lemma getInvite_inv iid σ invite σ1 :
  getInvite rt iid σ = (Ok (Some invite), σ1) →
  ∃ data,
    invites (store σ) !! getDocRef rt "invites" iid = Some data ∧
    readOnly σ σ1 ∧
    invite_id invite = iid ∧ familyId invite = inv_familyId data ∧
    status invite = inv_status data ∧
    (∀ t, inv_expiresAt data = Some t → expiresAt invite = t).
Proof.
  intros Hrun.
  destruct (invites (store σ) !! getDocRef rt "invites" iid)
    as [data|] eqn:Hdoc.
  - destruct (getInvite_Some iid σ data Hdoc) as (i & σ' & Hrun' & Hrest).
    rewrite Hrun in Hrun'. injection Hrun' as <- <-. by exists data.
  - rewrite (getInvite_None iid σ Hdoc) in Hrun. discriminate Hrun.
Qed.

(** *** Writes *)

Lemma commit_family ref ms σ f :
  families (store σ) !! ref = Some f →
  commit rt (updateDoc_family ref ms) σ
  = (Ok tt,
     {| store :=
          {| users := users (store σ);
             families :=
               <[ref := patchFamily (serverClock rt (length (writes σ))) ms f]>
                 (families (store σ));
             invites := invites (store σ) |};
        writes := writes σ ++ [updateDoc_family ref ms];
        dateReads := dateReads σ;
        idsDrawn := idsDrawn σ |}).
Proof. intros H. unfold commit. cbn. by rewrite H. Qed.

Lemma commit_user ref fams σ u :
  users (store σ) !! ref = Some u →
  commit rt (updateDoc_user ref fams) σ
  = (Ok tt,
     {| store :=
          {| users :=
               <[ref := patchUser (serverClock rt (length (writes σ))) fams u]>
                 (users (store σ));
             families := families (store σ);
             invites := invites (store σ) |};
        writes := writes σ ++ [updateDoc_user ref fams];
        dateReads := dateReads σ;
        idsDrawn := idsDrawn σ |}).
Proof. intros H. unfold commit. cbn. by rewrite H. Qed.

Lemma commit_invite ref st σ i :
  invites (store σ) !! ref = Some i →
  commit rt (updateDoc_invite ref st) σ
  = (Ok tt,
     {| store :=
          {| users := users (store σ);
             families := families (store σ);
             invites := <[ref := patchInvite st i]> (invites (store σ)) |};
        writes := writes σ ++ [updateDoc_invite ref st];
        dateReads := dateReads σ;
        idsDrawn := idsDrawn σ |}).
Proof. intros H. unfold commit. cbn. by rewrite H. Qed.

(** *** [addFamilyToUser] *)

Lemma addFamilyToUser_missing uid fid σ :
  users (store σ) !! getDocRef rt "users" uid = None →
  addFamilyToUser rt uid fid σ = (Err "Failed to add family", σ).
Proof.
  intros H. unfold addFamilyToUser, tryCatch, mbind, M_bind, getDoc_user.
  by rewrite H.
Qed.

Lemma addFamilyToUser_listed uid fid σ u :
  users (store σ) !! getDocRef rt "users" uid = Some u →
  fid ∈ default [] (user_families u) →
  addFamilyToUser rt uid fid σ = (Ok tt, σ).
Proof.
  intros H Hin.
  unfold addFamilyToUser, tryCatch, mbind, M_bind, getDoc_user, includes.
  rewrite H. by rewrite bool_decide_eq_true_2.
Qed.

Lemma addFamilyToUser_new uid fid σ u :
  users (store σ) !! getDocRef rt "users" uid = Some u →
  fid ∉ default [] (user_families u) →
  addFamilyToUser rt uid fid σ
  = commit rt (updateDoc_user (getDocRef rt "users" uid)
                 (default [] (user_families u) ++ [fid])) σ.
Proof.
  intros H Hin.
  unfold addFamilyToUser, tryCatch, mbind, M_bind, getDoc_user, includes.
  rewrite H, bool_decide_eq_false_2 by done. cbn [negb].
  by rewrite (commit_user _ _ _ _ H).
Qed.
End ServiceFacts.

(** *** Membership primitives *)

(** C8. [addFamilyToUser(userId, familyId)] is idempotent: once a call
    has gone through, a second call with the same arguments returns
    without an error and changes nothing (it writes nothing, so the
    user's [families] array is the one the first call left); the family
    is listed, and an array without duplicates stays without
    duplicates. *)
Theorem addFamilyToUser_idempotent (rt : Runtime) (userId familyId : string)
    (σ σ1 : World) :
  addFamilyToUser rt userId familyId σ = (Ok tt, σ1) →
  addFamilyToUser rt userId familyId σ1 = (Ok tt, σ1) ∧
  ∃ u u1,
    users (store σ) !! getDocRef rt "users" userId = Some u ∧
    users (store σ1) !! getDocRef rt "users" userId = Some u1 ∧
    familyId ∈ default [] (user_families u1) ∧
    (NoDup (default [] (user_families u)) →
     NoDup (default [] (user_families u1))).
Proof.
  intros Hrun.
  destruct (users (store σ) !! getDocRef rt "users" userId) as [u|] eqn:Hu.
  2: { rewrite (addFamilyToUser_missing rt _ _ _ Hu) in Hrun.
       discriminate Hrun. }
  destruct (decide (familyId ∈ default [] (user_families u))) as [Hin|Hin].
  - rewrite (addFamilyToUser_listed rt _ _ _ _ Hu Hin) in Hrun.
    injection Hrun as <-.
    split; [by eapply addFamilyToUser_listed|]. by exists u, u.
  - rewrite (addFamilyToUser_new rt _ _ _ _ Hu Hin),
      (commit_user rt _ _ _ _ Hu) in Hrun.
    injection Hrun as <-. cbn [store users].
    assert (Hin' : familyId ∈ default [] (user_families u) ++ [familyId])
      by (apply elem_of_app; right; by apply list_elem_of_singleton).
    split.
    + eapply addFamilyToUser_listed; cbn [store users].
      * apply lookup_insert_eq.
      * exact Hin'.
    + eexists u, _. split; [done|]. split; [apply lookup_insert_eq|].
      split; [exact Hin'|]. cbn. intros Hnd.
      apply NoDup_app. split; [done|]. split; [|apply NoDup_singleton].
      intros x Hx ->%list_elem_of_singleton. done.
Qed.

Lemma addFamilyToUser_idempotent_witness :
  let rt := Sample.runtime (Some "u2") Sample.utc in
  let σ1 := (addFamilyToUser rt "u2" "f1" Sample.invited).2 in
  addFamilyToUser rt "u2" "f1" Sample.invited = (Ok tt, σ1) ∧
  addFamilyToUser rt "u2" "f1" σ1 = (Ok tt, σ1).
Proof.
  cbn zeta.
  assert (H : addFamilyToUser (Sample.runtime (Some "u2") Sample.utc)
                "u2" "f1" Sample.invited
              = (Ok tt, (addFamilyToUser (Sample.runtime (Some "u2") Sample.utc)
                           "u2" "f1" Sample.invited).2))
    by (vm_compute; reflexivity).
  split; [exact H|].
  exact (proj1 (addFamilyToUser_idempotent _ _ _ _ _ H)).
Defined.

Section MemberOperations.
Context (rt : Runtime).

(** The three ways a member operation ends: it throws before any write,
    leaving the store as it was, or it commits its one write to the
    family document. *)
Lemma removeFamilyMember_guarded fid mid σ uid fam :
  currentUser rt = Some uid →
  families (store σ) !! getDocRef rt "families" fid = Some fam →
  ∃ σ1, readOnly σ σ1 ∧
    removeFamilyMember rt fid mid σ =
      if negb (bool_decide (fam_createdBy fam = uid))
      then (Err "Only the family admin can remove members", σ1)
      else if bool_decide (mid = fam_createdBy fam)
      then (Err "Cannot remove the family admin", σ1)
      else commit rt
             (updateDoc_family (getDocRef rt "families" fid)
                (arrayValue
                   (filter (λ m, m ≠ mid) (default [] (fam_members fam)))))
             σ1.
Proof.
  intros Hu Hf.
  destruct (getFamilyById_Some rt fid σ fam Hf)
    as (family & σ1 & Hrun & RO & _ & _ & Hc & Hm).
  exists σ1. split; [exact RO|].
  unfold removeFamilyMember, getCurrentAuthUser. rewrite Hu.
  unfold mbind, M_bind. rewrite Hrun, Hc, Hm.
  destruct (bool_decide (fam_createdBy fam = uid)); [|reflexivity].
  destruct (bool_decide (mid = fam_createdBy fam)); [reflexivity|].
  cbn [negb]. unfold tryCatch.
  destruct RO as (S1 & _ & _).
  rewrite <- S1 in Hf. by rewrite (commit_family rt _ _ _ _ Hf).
Qed.

Lemma leaveFamily_guarded fid σ uid fam :
  currentUser rt = Some uid →
  families (store σ) !! getDocRef rt "families" fid = Some fam →
  ∃ σ1, readOnly σ σ1 ∧
    leaveFamily rt fid σ =
      if bool_decide (fam_createdBy fam = uid)
      then (Err "Family admin cannot leave. Transfer ownership or delete the family.", σ1)
      else commit rt
             (updateDoc_family (getDocRef rt "families" fid)
                (arrayValue
                   (filter (λ m, m ≠ uid) (default [] (fam_members fam)))))
             σ1.
Proof.
  intros Hu Hf.
  destruct (getFamilyById_Some rt fid σ fam Hf)
    as (family & σ1 & Hrun & RO & _ & _ & Hc & Hm).
  exists σ1. split; [exact RO|].
  unfold leaveFamily, getCurrentAuthUser. rewrite Hu.
  unfold mbind, M_bind. rewrite Hrun, Hc, Hm.
  destruct (bool_decide (fam_createdBy fam = uid)); [reflexivity|].
  unfold tryCatch.
  destruct RO as (S1 & _ & _).
  rewrite <- S1 in Hf. by rewrite (commit_family rt _ _ _ _ Hf).
Qed.

(** Filtering one member out of a family leaves everybody else in. *)
Lemma creator_survives_filter (c gone : string) (ms : list string) :
  c ≠ gone → c ∈ ms → c ∈ filter (λ m, m ≠ gone) ms.
Proof. intros Hne Hin. by apply list_elem_of_filter. Qed.

(** A write of a filtered member list to one family keeps the creator
    of every family among its members. *)
Lemma commit_filter_keeps_creator ref gone σ1 σ fid fam f1 :
  store σ1 = store σ →
  families (store σ) !! getDocRef rt "families" fid = Some fam →
  fam_createdBy fam ∈ default [] (fam_members fam) →
  families (store σ) !! ref = Some f1 →
  fam_createdBy f1 ≠ gone →
  ∃ fam',
    families
      (store (commit rt
                (updateDoc_family ref
                   (arrayValue
                      (filter (λ m, m ≠ gone)
                         (default [] (fam_members f1))))) σ1).2)
      !! getDocRef rt "families" fid = Some fam' ∧
    fam_createdBy fam' = fam_createdBy fam ∧
    fam_createdBy fam ∈ default [] (fam_members fam').
Proof.
  intros S1 Hf Hin H1 Hne.
  rewrite <- S1 in H1. rewrite (commit_family rt _ _ _ _ H1).
  cbn [snd store families]. rewrite S1.
  destruct (decide (ref = getDocRef rt "families" fid)) as [->|Hother].
  - rewrite lookup_insert_eq. eexists. split; [reflexivity|].
    rewrite S1, Hf in H1. injection H1 as <-.
    split; [reflexivity|]. cbn. by apply creator_survives_filter.
  - rewrite lookup_insert_ne by done. by exists fam.
Qed.

Lemma removeFamilyMember_keeps_creator σ fid fam fid' mid :
  families (store σ) !! getDocRef rt "families" fid = Some fam →
  fam_createdBy fam ∈ default [] (fam_members fam) →
  ∃ fam',
    families (store (removeFamilyMember rt fid' mid σ).2)
      !! getDocRef rt "families" fid = Some fam' ∧
    fam_createdBy fam' = fam_createdBy fam ∧
    fam_createdBy fam ∈ default [] (fam_members fam').
Proof.
  intros Hf Hin.
  destruct (currentUser rt) as [uid|] eqn:Hu.
  2: { unfold removeFamilyMember, getCurrentAuthUser. rewrite Hu.
       by exists fam. }
  destruct (families (store σ) !! getDocRef rt "families" fid')
    as [f1|] eqn:H1.
  2: { unfold removeFamilyMember, getCurrentAuthUser, mbind, M_bind.
       rewrite Hu, (getFamilyById_None rt _ _ H1). by exists fam. }
  destruct (removeFamilyMember_guarded fid' mid σ uid f1 Hu H1)
    as (σ1 & (S1 & _ & _) & ->).
  destruct (bool_decide (fam_createdBy f1 = uid)); cbn [negb].
  2: { cbn [snd]. rewrite S1. by exists fam. }
  destruct (bool_decide (mid = fam_createdBy f1)) eqn:Hmid.
  { cbn [snd]. rewrite S1. by exists fam. }
  apply bool_decide_eq_false in Hmid.
  eapply commit_filter_keeps_creator; eauto.
Qed.

Lemma leaveFamily_keeps_creator σ fid fam fid' :
  families (store σ) !! getDocRef rt "families" fid = Some fam →
  fam_createdBy fam ∈ default [] (fam_members fam) →
  ∃ fam',
    families (store (leaveFamily rt fid' σ).2)
      !! getDocRef rt "families" fid = Some fam' ∧
    fam_createdBy fam' = fam_createdBy fam ∧
    fam_createdBy fam ∈ default [] (fam_members fam').
Proof.
  intros Hf Hin.
  destruct (currentUser rt) as [uid|] eqn:Hu.
  2: { unfold leaveFamily, getCurrentAuthUser. rewrite Hu. by exists fam. }
  destruct (families (store σ) !! getDocRef rt "families" fid')
    as [f1|] eqn:H1.
  2: { unfold leaveFamily, getCurrentAuthUser, mbind, M_bind.
       rewrite Hu, (getFamilyById_None rt _ _ H1). by exists fam. }
  destruct (leaveFamily_guarded fid' σ uid f1 Hu H1)
    as (σ1 & (S1 & _ & _) & ->).
  destruct (bool_decide (fam_createdBy f1 = uid)) eqn:Hc.
  { cbn [snd]. rewrite S1. by exists fam. }
  apply bool_decide_eq_false in Hc.
  eapply commit_filter_keeps_creator; eauto.
Qed.
End MemberOperations.

(** C7. Whoever calls it, [removeFamilyMember(familyId, creatorId)] with
    the family's creator as its target fails with an authorization error,
    and [leaveFamily(familyId)] called by the creator fails; neither
    writes.  Hence every call of [removeFamilyMember] or [leaveFamily],
    on whatever family and target and by whatever caller, leaves the
    creator of a family, when a member of it, a member of it. *)
Theorem creator_stays_member (rt : Runtime) (σ : World) (familyId : string)
    (fam : FirestoreFamily) :
  families (store σ) !! getDocRef rt "families" familyId = Some fam →
  (∃ msg σ',
     removeFamilyMember rt familyId (fam_createdBy fam) σ = (Err msg, σ') ∧
     authorizationError msg ∧ readOnly σ σ') ∧
  (currentUser rt = Some (fam_createdBy fam) →
   ∃ msg σ',
     leaveFamily rt familyId σ = (Err msg, σ') ∧
     authorizationError msg ∧ readOnly σ σ') ∧
  (fam_createdBy fam ∈ default [] (fam_members fam) →
   ∀ anyFamily anyMember,
     (∃ fam',
        families (store (removeFamilyMember rt anyFamily anyMember σ).2)
          !! getDocRef rt "families" familyId = Some fam' ∧
        fam_createdBy fam' = fam_createdBy fam ∧
        fam_createdBy fam ∈ default [] (fam_members fam')) ∧
     (∃ fam',
        families (store (leaveFamily rt anyFamily σ).2)
          !! getDocRef rt "families" familyId = Some fam' ∧
        fam_createdBy fam' = fam_createdBy fam ∧
        fam_createdBy fam ∈ default [] (fam_members fam'))).
Proof.
  intros Hf. split_and!.
  - destruct (currentUser rt) as [uid|] eqn:Hu.
    + destruct (removeFamilyMember_guarded rt familyId (fam_createdBy fam)
                  σ uid fam Hu Hf) as (σ1 & RO & ->).
      rewrite (bool_decide_eq_true_2 (fam_createdBy fam = fam_createdBy fam))
        by reflexivity.
      destruct (bool_decide (fam_createdBy fam = uid)); cbn [negb];
        eexists _, σ1; (split; [reflexivity|]); (split; [|exact RO]);
        unfold authorizationError; set_solver.
    + unfold removeFamilyMember, getCurrentAuthUser. rewrite Hu.
      eexists _, σ. split; [reflexivity|]. split; [|done].
      unfold authorizationError; set_solver.
  - intros Hu.
    destruct (leaveFamily_guarded rt familyId σ _ fam Hu Hf)
      as (σ1 & RO & ->).
    rewrite bool_decide_eq_true_2 by reflexivity.
    eexists _, σ1. split; [reflexivity|]. split; [|exact RO].
    unfold authorizationError; set_solver.
  - intros Hin anyFamily anyMember. split.
    + by apply removeFamilyMember_keeps_creator.
    + by apply leaveFamily_keeps_creator.
Qed.

Lemma creator_stays_member_witness :
  let rt := Sample.runtime (Some "u2") Sample.utc in
  families (store Sample.joined) !! getDocRef rt "families" "f1"
  = Some (Sample.smiths ["u1"; "u2"]) ∧
  ∃ msg σ',
    removeFamilyMember rt "f1" "u1" Sample.joined = (Err msg, σ') ∧
    authorizationError msg ∧ readOnly Sample.joined σ'.
Proof.
  cbn zeta.
  assert (H : families (store Sample.joined)
                !! getDocRef (Sample.runtime (Some "u2") Sample.utc)
                     "families" "f1"
              = Some (Sample.smiths ["u1"; "u2"])) by (vm_compute; reflexivity).
  split; [exact H|].
  exact (proj1 (creator_stays_member _ _ _ _ H)).
Defined.

(** C10. When the creator of a family removes from it a member
    [memberId] other than the creator, the call succeeds and its one write
    replaces the
    family's [members] by the array without [memberId]; no user document
    is touched, so a removed member whose [families] array lists the
    family still lists it afterwards. *)
Theorem removeFamilyMember_leaves_user_document (rt : Runtime) (σ : World)
    (familyId memberId : string) (fam : FirestoreFamily) :
  currentUser rt = Some (fam_createdBy fam) →
  families (store σ) !! getDocRef rt "families" familyId = Some fam →
  memberId ≠ fam_createdBy fam →
  ∃ σ' fam',
    removeFamilyMember rt familyId memberId σ = (Ok tt, σ') ∧
    families (store σ') !! getDocRef rt "families" familyId = Some fam' ∧
    fam_members fam'
    = Some (filter (λ m, m ≠ memberId) (default [] (fam_members fam))) ∧
    (memberId ∉ default [] (fam_members fam')) ∧
    users (store σ') = users (store σ) ∧
    (∀ u,
       users (store σ) !! getDocRef rt "users" memberId = Some u →
       familyId ∈ default [] (user_families u) →
       users (store σ') !! getDocRef rt "users" memberId = Some u) ∧
    ∃ σ1, readOnly σ σ1 ∧
      writes σ' = writes σ1 ++
        [updateDoc_family (getDocRef rt "families" familyId)
           (arrayValue
              (filter (λ m, m ≠ memberId) (default [] (fam_members fam))))].
Proof.
  intros Hu Hf Hne.
  destruct (removeFamilyMember_guarded rt familyId memberId σ _ fam Hu Hf)
    as (σ1 & RO & ->).
  rewrite bool_decide_eq_true_2, bool_decide_eq_false_2 by done.
  cbn [negb]. destruct RO as (S1 & W1 & I1).
  assert (Hf1 : families (store σ1) !! getDocRef rt "families" familyId
                = Some fam) by (by rewrite S1).
  rewrite (commit_family rt _ _ _ _ Hf1).
  eexists _, _. split; [reflexivity|]. cbn [store families users writes].
  split; [apply lookup_insert_eq|]. split; [reflexivity|].
  split; [|split; [by rewrite S1|split]].
  - cbn. rewrite list_elem_of_filter. intros [Hm _]. by apply Hm.
  - intros u Hdoc _. by rewrite S1.
  - exists σ1. done.
Qed.

Lemma removeFamilyMember_leaves_user_document_witness :
  let rt := Sample.runtime (Some "u1") Sample.utc in
  currentUser rt = Some (fam_createdBy (Sample.smiths ["u1"; "u2"])) ∧
  families (store Sample.joined) !! getDocRef rt "families" "f1"
  = Some (Sample.smiths ["u1"; "u2"]) ∧
  "u2" ≠ fam_createdBy (Sample.smiths ["u1"; "u2"]) ∧
  ∃ σ' fam',
    removeFamilyMember rt "f1" "u2" Sample.joined = (Ok tt, σ') ∧
    families (store σ') !! getDocRef rt "families" "f1" = Some fam' ∧
    ("u2" ∉ default [] (fam_members fam')) ∧
    users (store σ') !! getDocRef rt "users" "u2"
    = Some (Sample.profile "b@x.org" ["f1"]).
Proof.
  cbn zeta.
  assert (H1 : currentUser (Sample.runtime (Some "u1") Sample.utc)
               = Some (fam_createdBy (Sample.smiths ["u1"; "u2"])))
    by reflexivity.
  assert (H2 : families (store Sample.joined)
                 !! getDocRef (Sample.runtime (Some "u1") Sample.utc)
                      "families" "f1"
               = Some (Sample.smiths ["u1"; "u2"])) by (vm_compute; reflexivity).
  assert (H3 : "u2" ≠ fam_createdBy (Sample.smiths ["u1"; "u2"])) by done.
  split; [exact H1|]. split; [exact H2|]. split; [exact H3|].
  destruct (removeFamilyMember_leaves_user_document _ _ _ _ _ H1 H2 H3)
    as (σ' & fam' & Hrun & Hf & _ & Hout & _ & Hkeep & _).
  exists σ', fam'. split; [exact Hrun|]. split; [exact Hf|].
  split; [exact Hout|].
  apply Hkeep; [vm_compute; reflexivity|].
  cbn. by apply list_elem_of_singleton.
Defined.

(** ** Dates *)
Section DateFacts.
Import JSDate.
Open Scope Z_scope.

(** [YearFromTime] meets its definition in the standard: it is the
    year whose first instant is the last one not after [t]. *)
Lemma YearFromTime_spec t :
  TimeFromYear (YearFromTime t) <= t < TimeFromYear (YearFromTime t + 1).
Proof.
  unfold YearFromTime, TimeFromYear, DayFromYear, Day, msPerDay.
  repeat case_match; Z.div_mod_to_equations; lia.
Qed.

Lemma MonthFromTime_range t : 0 <= MonthFromTime t <= 11.
Proof. unfold MonthFromTime. repeat case_match; lia. Qed.

(** The day number of a date of the month of [t], counted from the
    date of [t]. *)
Lemma MakeDay_from_date t n :
  MakeDay (YearFromTime t) (MonthFromTime t) (DateFromTime t + n)
  = Day t + n.
Proof.
  pose proof (MonthFromTime_range t) as Hm.
  unfold MakeDay.
  rewrite (Z.div_small (MonthFromTime t) 12),
    (Z.mod_small (MonthFromTime t) 12) by lia.
  rewrite Z.add_0_r.
  unfold DateFromTime, DayWithinYear, InLeapYear. lia.
Qed.

Variable tza : Z → bool → Z.

(** [d.setDate(d.getDate() + n)] moves [d] by [n] days of local time. *)
Lemma setDate_getDate t n :
  setDate tza t (getDate tza t + n)
  = UTC tza (LocalTime tza t + n * msPerDay).
Proof.
  unfold setDate, getDate. rewrite MakeDay_from_date.
  unfold MakeDate, Day, TimeWithinDay. f_equal.
  pose proof (Z.div_mod (LocalTime tza t) msPerDay) as H.
  unfold msPerDay in *. lia.
Qed.

(** In elapsed time that is [n] days when the zone's offset is the same
    at both ends. *)
Lemma setDate_getDate_same_offset t n :
  tza t true = tza (LocalTime tza t + n * msPerDay) false →
  setDate tza t (getDate tza t + n) = t + n * msPerDay.
Proof.
  intros H. rewrite setDate_getDate. unfold UTC. rewrite <- H.
  unfold LocalTime. lia.
Qed.
End DateFacts.

Example DateFromTime_sample :
  (JSDate.YearFromTime Sample.noon, JSDate.MonthFromTime Sample.noon,
   JSDate.DateFromTime Sample.noon) = (2024, 9, 25)%Z.
Proof. reflexivity. Qed.

Example DateFromTime_leap_day :
  (JSDate.YearFromTime 1709164800000, JSDate.MonthFromTime 1709164800000,
   JSDate.DateFromTime 1709164800000) = (2024, 1, 29)%Z.
Proof. reflexivity. Qed.

Example DateFromTime_before_epoch :
  (JSDate.YearFromTime (-1), JSDate.MonthFromTime (-1),
   JSDate.DateFromTime (-1)) = (1969, 11, 31)%Z.
Proof. reflexivity. Qed.

(** ** Creation of an invite *)




(** ** Acceptance of an invite *)
Section AcceptInvite.
Context (rt : Runtime).

Lemma acceptFamilyInvite_unauthenticated iid σ :
  currentUser rt = None →
  acceptFamilyInvite rt iid σ
  = (Err "You must be logged in to accept an invite", σ).
Proof.
  intros Hu. unfold acceptFamilyInvite, getCurrentAuthUser. by rewrite Hu.
Qed.

Lemma acceptFamilyInvite_not_found iid σ uid :
  currentUser rt = Some uid →
  invites (store σ) !! getDocRef rt "invites" iid = None →
  acceptFamilyInvite rt iid σ = (Err "Invite not found", σ).
Proof.
  intros Hu Hi. unfold acceptFamilyInvite, getCurrentAuthUser, mbind, M_bind.
  by rewrite Hu, (getInvite_None rt _ _ Hi).
Qed.

(** The checks that follow the reading of the invite, in the order of
    the code; the last case is the [try] block. *)
Lemma acceptFamilyInvite_guarded iid σ uid invite σ1 :
  currentUser rt = Some uid →
  getInvite rt iid σ = (Ok (Some invite), σ1) →
  ∃ σ2, readOnly σ σ2 ∧
    if negb (bool_decide (status invite = pending))
    then acceptFamilyInvite rt iid σ
         = (Err "This invite has already been used or expired", σ2)
    else if bool_decide (expiresAt invite < wallClock rt (dateReads σ1))%Z
    then acceptFamilyInvite rt iid σ = (Err "This invite has expired", σ2)
    else
      match families (store σ) !! getDocRef rt "families" (familyId invite)
      with
      | None => acceptFamilyInvite rt iid σ = (Err "Family not found", σ2)
      | Some fam =>
          if bool_decide (uid ∈ default [] (fam_members fam))
          then acceptFamilyInvite rt iid σ
               = (Err "You are already a member of this family", σ2)
          else ∃ family,
            id family = familyId invite ∧
            members family = default [] (fam_members fam) ∧
            acceptFamilyInvite rt iid σ =
              tryCatch
                (commit rt
                   (updateDoc_family
                      (getDocRef rt "families" (familyId invite))
                      (arrayUnion uid));;
                 addFamilyToUser rt uid (familyId invite);;
                 commit rt
                   (updateDoc_invite (getDocRef rt "invites" iid) accepted);;
                 mret {| id := id family;
                         name := name family;
                         createdBy := createdBy family;
                         members := members family ++ [uid];
                         createdAt := createdAt family;
                         updatedAt := updatedAt family |})
                (λ _, throw "Failed to join family") σ2
      end.
Proof.
  intros Hu Hrun.
  destruct (getInvite_inv rt _ _ _ _ Hrun) as (data & _ & RO1 & _).
  unfold acceptFamilyInvite, getCurrentAuthUser. rewrite Hu.
  unfold mbind, M_bind. rewrite Hrun.
  destruct (bool_decide (status invite = pending)); cbn [negb].
  2: { by exists σ1. }
  destruct (newDate_run rt σ1) as (σ2 & Hd & RO2). rewrite Hd.
  pose proof (readOnly_trans _ _ _ RO1 RO2) as RO.
  destruct (bool_decide (expiresAt invite < wallClock rt (dateReads σ1))%Z).
  { by exists σ2. }
  destruct (families (store σ) !! getDocRef rt "families" (familyId invite))
    as [fam|] eqn:Hf.
  2: { exists σ2. split; [exact RO|].
       destruct RO as (S2 & _). rewrite <- S2 in Hf.
       by rewrite (getFamilyById_None rt _ _ Hf). }
  assert (Hf2 : families (store σ2)
                  !! getDocRef rt "families" (familyId invite) = Some fam).
  { destruct RO as (S2 & _). by rewrite S2. }
  destruct (getFamilyById_Some rt _ _ _ Hf2)
    as (family & σ3 & -> & RO3 & Hid & _ & _ & Hm).
  exists σ3. split; [by eapply readOnly_trans|].
  destruct family as [fid fname fcreator fmembers fcreated fupdated].
  cbn in Hid, Hm. subst fid fmembers. unfold includes. cbn [members].
  destruct (bool_decide (uid ∈ default [] (fam_members fam)));
    [reflexivity|].
  exists {| id := familyId invite; name := fname; createdBy := fcreator;
            members := default [] (fam_members fam);
            createdAt := fcreated; updatedAt := fupdated |}.
  done.
Qed.
End AcceptInvite.

(** C2. Whenever a precondition of [acceptFamilyInvite] fails (nobody is
    signed in, the invite does not exist, its status is not [pending],
    the clock is past its [expiresAt], its family does not exist, or the
    caller is already a member), the call throws and has written
    nothing: the store, and with it the invite, the family and the
    caller's user document, is what it was. *)
Theorem acceptFamilyInvite_rejection_writes_nothing (rt : Runtime) (σ : World)
    (inviteId : string) :
  (currentUser rt = None ∨
   invites (store σ) !! getDocRef rt "invites" inviteId = None ∨
   ∃ invite σ1,
     getInvite rt inviteId σ = (Ok (Some invite), σ1) ∧
     (status invite ≠ pending ∨
      (expiresAt invite < wallClock rt (dateReads σ1))%Z ∨
      families (store σ) !! getDocRef rt "families" (familyId invite) = None ∨
      ∃ uid fam,
        currentUser rt = Some uid ∧
        families (store σ) !! getDocRef rt "families" (familyId invite)
        = Some fam ∧
        uid ∈ default [] (fam_members fam))) →
  ∃ msg σ',
    acceptFamilyInvite rt inviteId σ = (Err msg, σ') ∧
    store σ' = store σ ∧ writes σ' = writes σ.
Proof.
  intros H.
  destruct (currentUser rt) as [uid|] eqn:Hu.
  2: { eexists _, σ. split; [|done].
       by apply acceptFamilyInvite_unauthenticated. }
  destruct (invites (store σ) !! getDocRef rt "invites" inviteId)
    as [data|] eqn:Hi.
  2: { eexists _, σ. split; [|done].
       by eapply acceptFamilyInvite_not_found. }
  destruct (getInvite_Some rt _ _ _ Hi) as (invite & σ1 & Hrun & _).
  assert (H' : status invite ≠ pending ∨
               (expiresAt invite < wallClock rt (dateReads σ1))%Z ∨
               families (store σ)
                 !! getDocRef rt "families" (familyId invite) = None ∨
               ∃ fam,
                 families (store σ)
                   !! getDocRef rt "families" (familyId invite) = Some fam ∧
                 uid ∈ default [] (fam_members fam)).
  { destruct H as [H|[H|(i & s & Hrun' & H)]]; [done|done|].
    rewrite Hrun in Hrun'. injection Hrun' as <- <-.
    destruct H as [H|[H|[H|(u & fam & Hu' & Hf & Hin)]]]; eauto.
    injection Hu' as <-. eauto 6. }
  clear H.
  destruct (acceptFamilyInvite_guarded rt _ _ _ _ _ Hu Hrun)
    as (σ2 & (S2 & W2 & _) & Htree).
  case_bool_decide as Hst; cbn [negb] in Htree;
    [|by eexists _, σ2].
  case_bool_decide as Hexp; [by eexists _, σ2|].
  destruct (families (store σ) !! getDocRef rt "families" (familyId invite))
    as [fam|] eqn:Hf; [|by eexists _, σ2].
  case_bool_decide as Hin; [by eexists _, σ2|].
  exfalso. destruct H' as [H|[H|[H|(fam' & [= <-] & Hin')]]]; done.
Qed.

Lemma acceptFamilyInvite_rejection_writes_nothing_witness :
  let rt := Sample.runtime (Some "u2") Sample.utc in
  (∃ invite σ1,
     getInvite rt "i1" Sample.joined = (Ok (Some invite), σ1) ∧
     status invite ≠ pending) ∧
  ∃ msg σ',
    acceptFamilyInvite rt "i1" Sample.joined = (Err msg, σ') ∧
    store σ' = store Sample.joined ∧ writes σ' = writes Sample.joined.
Proof.
  cbn zeta.
  pose (rt := Sample.runtime (Some "u2") Sample.utc).
  pose (r := getInvite rt "i1" Sample.joined).
  assert (Hrun : r = (Ok (Some {| invite_id := "i1"; familyId := "f1";
                                  familyName := "Smith Family";
                                  invitedBy := "u1"; invitedEmail := None;
                                  invite_createdAt := (Sample.noon - 1000)%Z;
                                  expiresAt :=
                                    (Sample.noon + 7 * JSDate.msPerDay)%Z;
                                  status := accepted |}), r.2))
    by (vm_compute; reflexivity).
  split.
  - eexists _, _. split; [exact Hrun|]. discriminate.
  - apply (acceptFamilyInvite_rejection_writes_nothing rt Sample.joined "i1").
    right. right. eexists _, _. split; [exact Hrun|]. left. discriminate.
Defined.






(** ** The end-to-end scenario of the specification *)

(** [u2] accepts the invite [i1] of the family [f1] that [u1] created:
    the members of [f1] become [u1] and [u2], the invite is accepted, and
    a second acceptance is refused as already used. *)
Example accept_then_accept_again :
  let rt := Sample.runtime (Some "u2") Sample.utc in
  let first := acceptFamilyInvite rt "i1" Sample.invited in
  let second := acceptFamilyInvite rt "i1" first.2 in
  members <$> (match first.1 with Ok f => Some f | Err _ => None end)
  = Some ["u1"; "u2"] ∧
  inv_status <$> invites (store first.2) !! getDocRef rt "invites" "i1"
  = Some accepted ∧
  second.1 = Err "This invite has already been used or expired" ∧
  store second.2 = store first.2.
Proof. cbn zeta. split_and!; vm_compute; reflexivity. Qed.

(** * Further properties *)

(** ** Strings, continued *)

(** A common suffix cancels. *)
Lemma app_inj_suffix s t u : s +:+ u = t +:+ u → s = t.
Proof.
  revert t. induction s as [|a s IH]; intros [|b t] H.
  - reflexivity.
  - apply (f_equal String.length) in H.
    rewrite !length_app_string in H. cbn [String.length] in H. lia.
  - apply (f_equal String.length) in H.
    rewrite !length_app_string in H. cbn [String.length] in H. lia.
  - rewrite !app_cons in H. injection H as -> H. f_equal. by apply IH.
Qed.

Lemma string_not_own_suffix s t : s ≠ "" → t ≠ s +:+ t.
Proof.
  intros Hs H. apply (f_equal String.length) in H.
  rewrite length_app_string in H. destruct s; [done|]. cbn in H. lia.
Qed.

Lemma hasSlash_app s t : hasSlash (s +:+ t) = hasSlash s || hasSlash t.
Proof.
  induction s as [|a s IH]; [reflexivity|].
  rewrite app_cons. cbn [hasSlash]. by rewrite IH, orb_assoc.
Qed.

Lemma app_nil_l_string s : "" +:+ s = s.
Proof. reflexivity. Qed.

Lemma hasSlash_after_slash s t : hasSlash (s +:+ String slash t) = true.
Proof. rewrite hasSlash_app. cbn. apply orb_true_r. Qed.

(** The last slash of a path splits it in one way only. *)
Lemma split_at_last_slash s t d1 d2 :
  hasSlash d1 = false → hasSlash d2 = false →
  s +:+ "/" +:+ d1 = t +:+ "/" +:+ d2 → s = t ∧ d1 = d2.
Proof.
  intros H1 H2. revert t. induction s as [|a s IH]; intros [|b t] H.
  - split; [reflexivity|]. by apply (String.app_inj "/") in H.
  - exfalso. rewrite !app_cons, !app_nil_l_string in H.
    injection H as _ H.
    rewrite H, hasSlash_after_slash in H1. discriminate H1.
  - exfalso. rewrite !app_cons, !app_nil_l_string in H.
    injection H as _ H.
    rewrite <- H, hasSlash_after_slash in H2. discriminate H2.
  - rewrite (app_cons a), (app_cons b) in H. injection H as -> H.
    destruct (IH _ H) as [-> ->]. done.
Qed.

Lemma validDocumentId_no_slash d : validDocumentId d = true → hasSlash d = false.
Proof.
  unfold validDocumentId. intros [_ H]%andb_true_iff.
  by apply negb_true_iff in H.
Qed.

(** ** Isolation of paths *)

(** X1. For one configuration the resolver is injective: different
    collection names resolve to different collection paths, and the path
    of a document determines both its collection name and its id (ids are
    single segments: not empty and without a slash). *)
Theorem resolved_paths_are_injective (e : ImportMetaEnv)
    (c1 c2 d1 d2 : string) :
  (getCollectionPath e c1 = getCollectionPath e c2 → c1 = c2) ∧
  (validDocumentId d1 = true → validDocumentId d2 = true →
   getDocumentPath e c1 d1 = getDocumentPath e c2 d2 →
   c1 = c2 ∧ d1 = d2).
Proof.
  split; [apply getCollectionPath_inj|].
  intros V1%validDocumentId_no_slash V2%validDocumentId_no_slash H.
  unfold getDocumentPath in H.
  destruct (split_at_last_slash _ _ _ _ V1 V2 H) as [Hc ->].
  split; [by eapply getCollectionPath_inj|reflexivity].
Qed.

Lemma resolved_paths_are_injective_witness :
  validDocumentId "u1" = true ∧ validDocumentId "u2" = true ∧
  (getDocumentPath Sample.envProduction "users" "u1"
   = getDocumentPath Sample.envProduction "users" "u2" →
   "users" = "users" ∧ "u1" = "u2").
Proof.
  split; [reflexivity|]. split; [reflexivity|].
  apply (resolved_paths_are_injective Sample.envProduction); reflexivity.
Defined.

(** X2. Two configurations with different root paths never resolve the
    same collection name, or the same document of it, to the same path
    string. *)
Theorem environments_are_isolated (e1 e2 : ImportMetaEnv) (c d : string) :
  getFirestoreRootPath e1 ≠ getFirestoreRootPath e2 →
  getCollectionPath e1 c ≠ getCollectionPath e2 c ∧
  getDocumentPath e1 c d ≠ getDocumentPath e2 c d.
Proof.
  intros Hroot.
  assert (Hc : getCollectionPath e1 c ≠ getCollectionPath e2 c).
  { unfold getCollectionPath.
    destruct (falsy (getFirestoreRootPath e1)) eqn:F1;
      destruct (falsy (getFirestoreRootPath e2)) eqn:F2.
    - apply falsy_true in F1, F2. congruence.
    - apply falsy_false in F2. rewrite <- app_assoc_string.
      apply string_not_own_suffix. by destruct (getFirestoreRootPath e2).
    - apply falsy_false in F1. rewrite <- app_assoc_string.
      intros H. symmetry in H. revert H.
      apply string_not_own_suffix. by destruct (getFirestoreRootPath e1).
    - intros H. by apply app_inj_suffix in H. }
  split; [exact Hc|].
  unfold getDocumentPath. intros H. by apply app_inj_suffix in H.
Qed.

Lemma environments_are_isolated_witness :
  getFirestoreRootPath Sample.envLocal
  ≠ getFirestoreRootPath Sample.envProduction ∧
  getDocumentPath Sample.envLocal "users" "u1"
  ≠ getDocumentPath Sample.envProduction "users" "u1".
Proof.
  assert (H : getFirestoreRootPath Sample.envLocal
              ≠ getFirestoreRootPath Sample.envProduction) by done.
  split; [exact H|].
  exact (proj2 (environments_are_isolated _ _ "users" "u1" H)).
Defined.

(** X3. Whatever their ids, a user document, a family document and an
    invite document never have the same path. *)
Theorem collections_are_disjoint (rt : Runtime) (d1 d2 d3 : string) :
  getDocRef rt "users" d1 ≠ getDocRef rt "families" d2 ∧
  getDocRef rt "users" d1 ≠ getDocRef rt "invites" d3 ∧
  getDocRef rt "families" d2 ≠ getDocRef rt "invites" d3.
Proof.
  unfold getDocRef, getCollectionPath.
  destruct (falsy _); split_and!; intros H;
    rewrite ?app_assoc_string in H;
    repeat match type of H with
           | ?p +:+ _ = ?p +:+ _ => apply String.app_inj in H
           end;
    discriminate H.
Qed.

(** X4. Every configuration is in exactly one of the three environments,
    and it is the local one unless [VITE_APP_ENV] is exactly
    ["production"] or ["preview"]: an unset or unknown value means
    local. *)
Theorem exactly_one_environment (e : ImportMetaEnv) :
  (isLocalEnvironment e, isPreviewEnvironment e, isProductionEnvironment e)
  ∈ [ (true, false, false); (false, true, false); (false, false, true) ] ∧
  (isProductionEnvironment e = true ↔ VITE_APP_ENV e = Some "production") ∧
  (isPreviewEnvironment e = true ↔ VITE_APP_ENV e = Some "preview") ∧
  (isLocalEnvironment e = true ↔
   VITE_APP_ENV e ≠ Some "production" ∧ VITE_APP_ENV e ≠ Some "preview").
Proof.
  unfold isLocalEnvironment, isPreviewEnvironment, isProductionEnvironment,
    getAppEnvironment.
  destruct (decide (VITE_APP_ENV e = Some "production")) as [Hp|Hp];
    [rewrite (bool_decide_eq_true_2 _ Hp)
    |rewrite (bool_decide_eq_false_2 _ Hp);
     destruct (decide (VITE_APP_ENV e = Some "preview")) as [Hv|Hv];
     [rewrite (bool_decide_eq_true_2 _ Hv)
     |rewrite (bool_decide_eq_false_2 _ Hv)]];
    (split; [compute_done|]); rewrite !bool_decide_eq_true;
    intuition congruence.
Qed.

(** X5. The path [getStorageRef] passes to [ref] is the one
    [getCollectionPath] computes for the same name: it is prefixed by the
    root path and a slash exactly when collection paths are.  So two
    configurations with the same root path pass the same storage path,
    and for a file named by a collection and a document id the path
    passed is the path of that document. *)
Theorem storage_paths_follow_collection_paths (rt1 rt2 : Runtime)
    (path c d : string) :
  getStorageRef rt1 path = getCollectionPath (importMetaEnv rt1) path ∧
  (VITE_FIRESTORE_ROOT_PATH (importMetaEnv rt1)
   = VITE_FIRESTORE_ROOT_PATH (importMetaEnv rt2) →
   getStorageRef rt1 path = getStorageRef rt2 path) ∧
  getStorageRef rt1 (c +:+ "/" +:+ d) = getDocRef rt1 c d.
Proof.
  assert (Heq : ∀ rt p, getStorageRef rt p
                        = getCollectionPath (importMetaEnv rt) p).
  { intros rt p. unfold getStorageRef, getCollectionPath. cbn.
    by destruct (falsy (getFirestoreRootPath (importMetaEnv rt))). }
  split; [apply Heq|]. split.
  - intros Hsame. by rewrite !Heq, !getCollectionPath_by_setting, Hsame.
  - rewrite Heq. unfold getDocRef, getCollectionPath.
    destruct (falsy (getFirestoreRootPath (importMetaEnv rt1)));
      [reflexivity|]. by rewrite !app_assoc_string.
Qed.

Example getStorageRef_production :
  getStorageRef (Sample.runtime None Sample.utc) "receipts/r1.jpg"
  = "environments/production/receipts/r1.jpg".
Proof. reflexivity. Qed.

(** ** Links and messages *)

(** X6. The link of an invite is the origin, ["/invite/"] and the
    invite's id, so the id is read back from the link by taking the
    origin and ["/invite/"] off its front; and for one origin, different
    invites have different links. *)
Theorem invite_links_are_distinct (origin id1 id2 : string) :
  id1 ≠ id2 →
  generateInviteUrl origin id1 = origin +:+ "/invite/" +:+ id1 ∧
  stripPrefix (origin +:+ "/invite/") (generateInviteUrl origin id1)
  = Some id1 ∧
  generateInviteUrl origin id1 ≠ generateInviteUrl origin id2.
Proof.
  intros Hne. split; [reflexivity|]. split.
  - unfold generateInviteUrl. rewrite <- app_assoc_string.
    generalize (origin +:+ "/invite/"). intros p.
    induction p as [|a p IH]; [reflexivity|].
    rewrite app_cons. cbn [stripPrefix].
    by rewrite bool_decide_eq_true_2.
  - unfold generateInviteUrl. intros H. apply Hne.
    by do 2 apply String.app_inj in H.
Qed.

Lemma invite_links_are_distinct_witness :
  "i1" ≠ "i2" ∧
  generateInviteUrl "https://x.org" "i1" = "https://x.org/invite/i1" ∧
  stripPrefix "https://x.org/invite/" (generateInviteUrl "https://x.org" "i1")
  = Some "i1" ∧
  generateInviteUrl "https://x.org" "i1"
  ≠ generateInviteUrl "https://x.org" "i2".
Proof.
  assert (Hne : "i1" ≠ "i2") by discriminate.
  split; [exact Hne|].
  exact (invite_links_are_distinct "https://x.org" "i1" "i2" Hne).
Defined.

(** X7. Unless the code names a property that every object inherits, the
    message for an error code is a string from a fixed set, never the
    code of the provider: a listed code has the message listed for it,
    which is not the catch-all message, and any other code has the
    catch-all message.  For the name of an inherited property the result
    is that property, which is not a string. *)
Theorem getAuthErrorMessage_is_a_fixed_message (errorCode : string) :
  (∀ message, (errorCode, message) ∈ errorMessages →
     getAuthErrorMessage errorCode = JSString message ∧
     message ≠ unexpectedError) ∧
  (errorCode ∉ errorMessages.*1 → errorCode ∉ objectPrototypeKeys →
   getAuthErrorMessage errorCode = JSString unexpectedError) ∧
  (errorCode ∈ objectPrototypeKeys →
   getAuthErrorMessage errorCode = Inherited errorCode) ∧
  (errorCode ∉ objectPrototypeKeys →
   ∃ message, getAuthErrorMessage errorCode = JSString message ∧
              message ∈ errorMessages.*2 ++ [unexpectedError]).
Proof.
  assert (Hkeys : NoDup (errorMessages.*1)) by compute_done.
  assert (Hmsgs : Forall (λ kv, falsy kv.2 = false ∧ kv.2 ≠ unexpectedError)
                    errorMessages) by compute_done.
  assert (Hproto : Forall (λ k, k ∉ errorMessages.*1) objectPrototypeKeys)
    by compute_done.
  rewrite Forall_forall in Hmsgs. rewrite Forall_forall in Hproto.
  assert (Hlisted : ∀ message, (errorCode, message) ∈ errorMessages →
            getAuthErrorMessage errorCode = JSString message ∧
            message ≠ unexpectedError).
  { intros message Hin. destruct (Hmsgs _ Hin) as [Hf Hne]. cbn in Hf, Hne.
    unfold getAuthErrorMessage.
    rewrite (proj1 (elem_of_list_to_map _ _ _ Hkeys) Hin), Hf. done. }
  assert (Hother : errorCode ∉ errorMessages.*1 →
            (list_to_map errorMessages : gmap string string) !! errorCode
            = None) by (by apply not_elem_of_list_to_map_1).
  split_and!.
  - exact Hlisted.
  - intros Hn Hp. unfold getAuthErrorMessage.
    rewrite (Hother Hn), bool_decide_eq_false_2; done.
  - intros Hp. unfold getAuthErrorMessage.
    rewrite (Hother (Hproto _ Hp)), bool_decide_eq_true_2; done.
  - intros Hp.
    destruct (decide (errorCode ∈ errorMessages.*1)) as [Hin|Hn].
    + apply list_elem_of_fmap in Hin as ([k message] & Hk & Hin).
      cbn [fst] in Hk. subst k. exists message. split; [by apply Hlisted|].
      apply elem_of_app. left. apply list_elem_of_fmap.
      by exists (errorCode, message).
    + exists unexpectedError. split.
      * unfold getAuthErrorMessage.
        rewrite (Hother Hn), bool_decide_eq_false_2; done.
      * apply elem_of_app. right. by apply list_elem_of_singleton.
Qed.

Lemma getAuthErrorMessage_is_a_fixed_message_witness :
  ("auth/wrong-password", "Incorrect password. Please try again.")
  ∈ errorMessages ∧
  getAuthErrorMessage "auth/wrong-password"
  = JSString "Incorrect password. Please try again.".
Proof.
  assert (H : ("auth/wrong-password", "Incorrect password. Please try again.")
              ∈ errorMessages) by compute_done.
  split; [exact H|].
  exact (proj1 (proj1 (getAuthErrorMessage_is_a_fixed_message _) _ H)).
Defined.

(** ** Profiles *)
Section ProfileFacts.
Context (rt : Runtime).

Lemma getUserById_None uid σ :
  users (store σ) !! getDocRef rt "users" uid = None →
  getUserById rt uid σ = (Ok None, σ).
Proof.
  intros H. unfold getUserById, tryCatch, mbind, M_bind, getDoc_user.
  by rewrite H.
Qed.

Lemma getUserById_Some uid σ data :
  users (store σ) !! getDocRef rt "users" uid = Some data →
  ∃ user σ1,
    getUserById rt uid σ = (Ok (Some user), σ1) ∧ readOnly σ σ1 ∧
    usr_id user = uid ∧ usr_email user = user_email data ∧
    usr_displayName user = user_displayName data ∧
    usr_photoUrl user = user_photoUrl data ∧
    usr_families user = default [] (user_families data).
Proof.
  intros H. unfold getUserById, tryCatch, mbind, M_bind, getDoc_user.
  rewrite H. unfold convertFirestoreUser, mbind, M_bind.
  destruct (toDateOrNow_run rt (user_createdAt data) σ)
    as (t1 & σ1 & -> & R1 & _).
  destruct (toDateOrNow_run rt (user_updatedAt data) σ1)
    as (t2 & σ2 & -> & R2 & _).
  cbn. eexists _, _. split; [reflexivity|].
  split; [by eapply readOnly_trans|done].
Qed.

Lemma mapM_cons_run {A B} (f : A → M B) (x : A) (l : list A) σ :
  mapM f (x :: l) σ
  = match f x σ with
    | (Ok y, σ1) =>
        match mapM f l σ1 with
        | (Ok ys, σ2) => (Ok (y :: ys), σ2)
        | (Err msg, σ2) => (Err msg, σ2)
        end
    | (Err msg, σ1) => (Err msg, σ1)
    end.
Proof. reflexivity. Qed.

(** [mapM] over reads: each element is read in a store that is the one
    the traversal started in. *)
Lemma mapM_reads {A B} (f : A → M B) (P : A → B → Prop) (l : list A) σ :
  (∀ x σ0, store σ0 = store σ →
     ∃ y σ1, f x σ0 = (Ok y, σ1) ∧ readOnly σ0 σ1 ∧ P x y) →
  ∃ ys σ', mapM f l σ = (Ok ys, σ') ∧ readOnly σ σ' ∧ Forall2 P l ys.
Proof.
  intros Hf.
  assert (Hgen : ∀ σ0, store σ0 = store σ →
            ∃ ys σ', mapM f l σ0 = (Ok ys, σ') ∧ readOnly σ0 σ' ∧
                     Forall2 P l ys).
  { induction l as [|x l IH]; intros σ0 S0.
    - exists [], σ0. split; [reflexivity|]. split; [done|constructor].
    - destruct (Hf x σ0 S0) as (y & σ1 & Hx & R1 & Hy).
      destruct (IH σ1) as (ys & σ2 & Hl & R2 & Hys).
      { destruct R1 as (S1 & _). congruence. }
      exists (y :: ys), σ2. split.
      + by rewrite mapM_cons_run, Hx, Hl.
      + split; [by eapply readOnly_trans|by constructor]. }
  by apply Hgen.
Qed.
End ProfileFacts.

(** X8. [addFamilyToUser] succeeds exactly when the user has a document.
    Without one it throws ["Failed to add family"] (the ["User not found"]
    it raises inside is replaced) and writes nothing.  In every case it
    leaves the families, the invites and the documents of all other users
    as they were. *)
Theorem addFamilyToUser_needs_a_user_document (rt : Runtime)
    (userId familyId : string) (σ : World) :
  let run := addFamilyToUser rt userId familyId σ in
  (users (store σ) !! getDocRef rt "users" userId = None →
   run = (Err "Failed to add family", σ)) ∧
  (is_Some (users (store σ) !! getDocRef rt "users" userId) →
   run.1 = Ok tt) ∧
  families (store run.2) = families (store σ) ∧
  invites (store run.2) = invites (store σ) ∧
  (∀ ref, ref ≠ getDocRef rt "users" userId →
     users (store run.2) !! ref = users (store σ) !! ref).
Proof.
  cbn zeta.
  destruct (users (store σ) !! getDocRef rt "users" userId) as [u|] eqn:Hu.
  - destruct (decide (familyId ∈ default [] (user_families u))) as [Hin|Hin].
    + rewrite (addFamilyToUser_listed rt _ _ _ _ Hu Hin).
      split_and!; try done.
    + rewrite (addFamilyToUser_new rt _ _ _ _ Hu Hin),
        (commit_user rt _ _ _ _ Hu).
      split_and!; try done.
      intros ref Href. cbn. by rewrite lookup_insert_ne.
  - rewrite (addFamilyToUser_missing rt _ _ _ Hu).
    split_and!; done.
Qed.

Lemma addFamilyToUser_needs_a_user_document_witness :
  let rt := Sample.runtime (Some "u2") Sample.utc in
  users (store Sample.invitedNoProfile) !! getDocRef rt "users" "u2" = None ∧
  addFamilyToUser rt "u2" "f1" Sample.invitedNoProfile
  = (Err "Failed to add family", Sample.invitedNoProfile).
Proof.
  cbn zeta.
  assert (H : users (store Sample.invitedNoProfile)
                !! getDocRef (Sample.runtime (Some "u2") Sample.utc)
                     "users" "u2" = None) by (vm_compute; reflexivity).
  split; [exact H|].
  exact (proj1 (addFamilyToUser_needs_a_user_document _ _ _ _) H).
Defined.

(** X9. What [addFamilyToUser] added is read back: after a call that
    returned, [getUserById] finds the user, with the family in the
    [families] of the profile, and with every family that was listed
    before still listed. *)
Theorem addFamilyToUser_then_getUserById (rt : Runtime)
    (userId familyId : string) (σ σ1 : World) :
  addFamilyToUser rt userId familyId σ = (Ok tt, σ1) →
  ∃ user σ2,
    getUserById rt userId σ1 = (Ok (Some user), σ2) ∧
    readOnly σ1 σ2 ∧
    usr_id user = userId ∧
    familyId ∈ usr_families user ∧
    (∀ u0, users (store σ) !! getDocRef rt "users" userId = Some u0 →
       default [] (user_families u0) ⊆ usr_families user).
Proof.
  intros Hrun.
  destruct (users (store σ) !! getDocRef rt "users" userId) as [u|] eqn:Hu.
  2: { rewrite (addFamilyToUser_missing rt _ _ _ Hu) in Hrun.
       discriminate Hrun. }
  destruct (decide (familyId ∈ default [] (user_families u))) as [Hin|Hin].
  - rewrite (addFamilyToUser_listed rt _ _ _ _ Hu Hin) in Hrun.
    injection Hrun as <-.
    destruct (getUserById_Some rt _ _ _ Hu)
      as (user & σ2 & Hget & RO & Hid & _ & _ & _ & Hf).
    exists user, σ2. rewrite Hf. split_and!; try done.
    by intros u0 [= <-].
  - rewrite (addFamilyToUser_new rt _ _ _ _ Hu Hin),
      (commit_user rt _ _ _ _ Hu) in Hrun.
    injection Hrun as <-.
    match goal with
    | |- context [getUserById rt userId ?w] =>
        assert (Hu1 : ∃ d,
                  users (store w) !! getDocRef rt "users" userId = Some d ∧
                  user_families d
                  = Some (default [] (user_families u) ++ [familyId]))
          by (eexists; split; [apply lookup_insert_eq|reflexivity])
    end.
    destruct Hu1 as (d & Hu1 & Hd).
    destruct (getUserById_Some rt _ _ _ Hu1)
      as (user & σ2 & Hget & RO & Hid & _ & _ & _ & Hf).
    exists user, σ2. rewrite Hf, Hd. cbn. split_and!; try done.
    + apply elem_of_app. right. by apply list_elem_of_singleton.
    + intros u0 [= <-] x Hx. apply elem_of_app. by left.
Qed.

Lemma addFamilyToUser_then_getUserById_witness :
  let rt := Sample.runtime (Some "u2") Sample.utc in
  let σ1 := (addFamilyToUser rt "u2" "f1" Sample.invited).2 in
  addFamilyToUser rt "u2" "f1" Sample.invited = (Ok tt, σ1) ∧
  ∃ user σ2,
    getUserById rt "u2" σ1 = (Ok (Some user), σ2) ∧
    "f1" ∈ usr_families user.
Proof.
  cbn zeta.
  assert (H : addFamilyToUser (Sample.runtime (Some "u2") Sample.utc)
                "u2" "f1" Sample.invited
              = (Ok tt, (addFamilyToUser (Sample.runtime (Some "u2") Sample.utc)
                           "u2" "f1" Sample.invited).2))
    by (vm_compute; reflexivity).
  split; [exact H|].
  destruct (addFamilyToUser_then_getUserById _ _ _ _ _ H)
    as (user & σ2 & Hget & _ & _ & Hin & _).
  by exists user, σ2.
Defined.

(** ** Creation of an invite, continued *)

Lemma getDocRef_same_env (rt rt' : Runtime) c d :
  importMetaEnv rt' = importMetaEnv rt → getDocRef rt' c d = getDocRef rt c d.
Proof. unfold getDocRef. by intros ->. Qed.

(** The two ways [createFamilyInvite] ends: a guard throws before
    anything is written or drawn, or the invite is written. *)
Lemma createFamilyInvite_cases (rt : Runtime) (fid : string) (σ : World) :
  (∃ msg σ0,
     createFamilyInvite rt fid σ = (Err msg, σ0) ∧ readOnly σ σ0 ∧
     match currentUser rt with
     | None => msg = "You must be logged in"
     | Some uid =>
         match families (store σ) !! getDocRef rt "families" fid with
         | None => msg = "Family not found"
         | Some fam =>
             msg = "You are not a member of this family" ∧
             uid ∉ default [] (fam_members fam)
         end
     end) ∨
  (∃ uid fam invite σ',
     currentUser rt = Some uid ∧
     families (store σ) !! getDocRef rt "families" fid = Some fam ∧
     uid ∈ default [] (fam_members fam) ∧
     createFamilyInvite rt fid σ = (Ok invite, σ') ∧
     invite_id invite = randomId rt (idsDrawn σ) ∧
     familyId invite = fid ∧
     familyName invite = fam_name fam ∧
     invitedBy invite = uid ∧
     invitedEmail invite = None ∧
     status invite = pending ∧
     users (store σ') = users (store σ) ∧
     families (store σ') = families (store σ) ∧
     invites (store σ')
     = <[getDocRef rt "invites" (invite_id invite) :=
           {| inv_familyId := fid;
              inv_familyName := fam_name fam;
              inv_invitedBy := uid;
              inv_invitedEmail := None;
              inv_createdAt := Some (serverClock rt (length (writes σ)));
              inv_expiresAt := Some (expiresAt invite);
              inv_status := pending |}]> (invites (store σ)) ∧
     writes σ'
     = writes σ ++
       [setDoc_invite (getDocRef rt "invites" (invite_id invite))
          {| data_familyId := fid;
             data_familyName := fam_name fam;
             data_invitedBy := uid;
             data_createdAt := serverTimestamp;
             data_expiresAt := Timestamp (expiresAt invite);
             data_status := pending |}]).
Proof.
  unfold createFamilyInvite, getCurrentAuthUser.
  destruct (currentUser rt) as [uid|] eqn:Hu.
  2: { left. by exists "You must be logged in", σ. }
  unfold mbind, M_bind.
  destruct (families (store σ) !! getDocRef rt "families" fid)
    as [fam|] eqn:Hf.
  2: { left. rewrite (getFamilyById_None rt _ _ Hf).
       by exists "Family not found", σ. }
  destruct (getFamilyById_Some rt _ _ _ Hf)
    as (family & σ1 & -> & RO & _ & Hname & _ & Hm).
  unfold includes. rewrite Hm.
  destruct (decide (uid ∈ default [] (fam_members fam))) as [Hin|Hin].
  2: { left. rewrite (bool_decide_eq_false_2 _ Hin). cbn [negb].
       by exists "You are not a member of this family", σ1. }
  right. rewrite (bool_decide_eq_true_2 _ Hin). cbn [negb].
  destruct RO as (S1 & W1 & I1).
  cbn [generateId newDate dateReads]. unfold tryCatch, commit.
  cbn [applyWrite store writes dateReads idsDrawn newDate mret M_ret].
  eexists uid, fam, _, _. split; [reflexivity|]. split; [reflexivity|].
  split; [exact Hin|]. split; [reflexivity|].
  cbn [invite_id familyId familyName invitedBy invitedEmail status expiresAt
       store users families invites writes].
  rewrite S1, W1, I1, Hname. split_and!; reflexivity.
Qed.

(** X10. [createFamilyInvite] is guarded: without a signed-in user, for
    a family that does not exist, or for a caller who is not a member of
    the family, it throws its own message and neither writes nor draws
    an identifier; for a member it returns an invite and its one write
    creates the invite document. *)
Theorem createFamilyInvite_is_for_members (rt : Runtime) (fid : string)
    (σ : World) :
  let run := createFamilyInvite rt fid σ in
  (currentUser rt = None → run.1 = Err "You must be logged in") ∧
  (∀ uid, currentUser rt = Some uid →
     families (store σ) !! getDocRef rt "families" fid = None →
     run.1 = Err "Family not found") ∧
  (∀ uid fam, currentUser rt = Some uid →
     families (store σ) !! getDocRef rt "families" fid = Some fam →
     uid ∉ default [] (fam_members fam) →
     run.1 = Err "You are not a member of this family") ∧
  (∀ uid fam, currentUser rt = Some uid →
     families (store σ) !! getDocRef rt "families" fid = Some fam →
     uid ∈ default [] (fam_members fam) →
     ∃ invite data,
       run.1 = Ok invite ∧ familyId invite = fid ∧ invitedBy invite = uid ∧
       writes run.2
       = writes σ ++
         [setDoc_invite (getDocRef rt "invites" (invite_id invite)) data]) ∧
  (throws run.1 →
   store run.2 = store σ ∧ writes run.2 = writes σ ∧
   idsDrawn run.2 = idsDrawn σ).
Proof.
  cbn zeta.
  destruct (createFamilyInvite_cases rt fid σ)
    as [(msg & σ0 & Hrun & RO & Hmsg)
       |(uid & fam & invite & σ' & Hu & Hf & Hin & Hrun & _ & Hfid & _
         & Hby & _ & _ & _ & _ & _ & Hw)];
    rewrite Hrun; cbn [fst snd].
  - split_and!.
    + intros Hu. by rewrite Hu in Hmsg; subst.
    + intros uid Hu Hf. rewrite Hu, Hf in Hmsg. by subst.
    + intros uid fam Hu Hf _. rewrite Hu, Hf in Hmsg. by destruct Hmsg as [-> _].
    + intros uid fam Hu Hf Hin. rewrite Hu, Hf in Hmsg. by destruct Hmsg.
    + intros _. exact RO.
  - split_and!.
    + congruence.
    + congruence.
    + intros uid' fam' Hu' Hf' Hout. congruence.
    + intros uid' fam' Hu' Hf' _. eexists invite, _.
      split; [reflexivity|]. split; [exact Hfid|].
      split; [congruence|exact Hw].
    + intros [msg [=]].
Qed.

Lemma createFamilyInvite_is_for_members_witness :
  let rt := Sample.runtime (Some "u2") Sample.utc in
  currentUser rt = Some "u2" ∧
  families (store Sample.invited) !! getDocRef rt "families" "f1"
  = Some (Sample.smiths ["u1"]) ∧
  ("u2" ∉ default [] (fam_members (Sample.smiths ["u1"]))) ∧
  (createFamilyInvite rt "f1" Sample.invited).1
  = Err "You are not a member of this family".
Proof.
  cbn zeta.
  assert (Hf : families (store Sample.invited)
                 !! getDocRef (Sample.runtime (Some "u2") Sample.utc)
                      "families" "f1"
               = Some (Sample.smiths ["u1"])) by (vm_compute; reflexivity).
  assert (Hout : "u2" ∉ default [] (fam_members (Sample.smiths ["u1"])))
    by (cbn; intros H%list_elem_of_singleton; discriminate H).
  split; [reflexivity|]. split; [exact Hf|]. split; [exact Hout|].
  destruct (createFamilyInvite_is_for_members
              (Sample.runtime (Some "u2") Sample.utc) "f1" Sample.invited)
    as (_ & _ & H & _).
  exact (H "u2" _ eq_refl Hf Hout).
Defined.

(** X11. An invite that was created is read back: whatever the caller,
    the clock and the time zone, [getInvite] on the identifier of the
    invite [createFamilyInvite] returned finds it, without reading the
    clock, with the same family, inviter, expiry and status; only
    [createdAt] differs, being the server's time of the write and not the
    client's. *)
Theorem createFamilyInvite_then_getInvite (rt rt' : Runtime) (fid : string)
    (σ σ1 : World) (invite : FamilyInvite) :
  importMetaEnv rt' = importMetaEnv rt →
  createFamilyInvite rt fid σ = (Ok invite, σ1) →
  ∃ found,
    getInvite rt' (invite_id invite) σ1 = (Ok (Some found), σ1) ∧
    invite_id found = invite_id invite ∧
    familyId found = familyId invite ∧
    familyName found = familyName invite ∧
    invitedBy found = invitedBy invite ∧
    invitedEmail found = invitedEmail invite ∧
    expiresAt found = expiresAt invite ∧
    status found = pending ∧
    invite_createdAt found = serverClock rt (length (writes σ)).
Proof.
  intros Henv Hrun.
  destruct (createFamilyInvite_cases rt fid σ)
    as [(msg & σ0 & Hrun' & _)
       |(uid & fam & invite' & σ' & _ & _ & _ & Hrun' & _ & Hfid & Hname
         & Hby & Hmail & _ & _ & _ & Hinv & _)];
    rewrite Hrun in Hrun'; [discriminate Hrun'|].
  injection Hrun' as <- <-.
  unfold getInvite, tryCatch, mbind, M_bind, getDoc_invite.
  rewrite (getDocRef_same_env rt rt' _ _ Henv), Hinv, lookup_insert_eq.
  cbn. eexists. split; [reflexivity|]. cbn.
  rewrite Hfid, Hname, Hby, Hmail. done.
Qed.

Lemma createFamilyInvite_then_getInvite_witness :
  let rt := Sample.runtime (Some "u1") Sample.berlin in
  let rt' := Sample.runtime (Some "u2") Sample.utc in
  let run := createFamilyInvite rt "f1" Sample.invited in
  ∃ invite,
    importMetaEnv rt' = importMetaEnv rt ∧
    run = (Ok invite, run.2) ∧
    ∃ found,
      getInvite rt' (invite_id invite) run.2 = (Ok (Some found), run.2) ∧
      expiresAt found = expiresAt invite ∧ status found = pending.
Proof.
  cbn zeta.
  pose (run := createFamilyInvite (Sample.runtime (Some "u1") Sample.berlin)
                 "f1" Sample.invited).
  assert (Hrun : run = (Ok {| invite_id := "i2"; familyId := "f1";
                              familyName := "Smith Family"; invitedBy := "u1";
                              invitedEmail := None;
                              invite_createdAt := Sample.noon;
                              expiresAt := 1730458800000;
                              status := pending |}, run.2))
    by (vm_compute; reflexivity).
  eexists. split; [reflexivity|]. split; [exact Hrun|].
  destruct (createFamilyInvite_then_getInvite
              (Sample.runtime (Some "u1") Sample.berlin)
              (Sample.runtime (Some "u2") Sample.utc) _ _ _ _ eq_refl Hrun)
    as (found & Hget & _ & _ & _ & _ & _ & Hexp & Hst & _).
  exists found. split; [exact Hget|]. split; [exact Hexp|exact Hst].
Defined.

(** ** Acceptance of an invite, continued *)

(** Everything [acceptFamilyInvite] can do to the store: nothing, when a
    guard throws; or the family gains the caller, and then either the
    caller has no user document and the call throws, or the invite
    becomes accepted and the caller's [families] gains the family unless
    it lists it already. *)
Lemma acceptFamilyInvite_effect (rt : Runtime) (iid : string) (σ : World) :
  ∃ r σ',
    acceptFamilyInvite rt iid σ = (r, σ') ∧
    ((∃ msg, r = Err msg ∧ msg ≠ "Failed to join family" ∧
             store σ' = store σ ∧ writes σ' = writes σ) ∨
     (∃ uid data fam ts,
        currentUser rt = Some uid ∧
        invites (store σ) !! getDocRef rt "invites" iid = Some data ∧
        inv_status data = pending ∧
        families (store σ) !! getDocRef rt "families" (inv_familyId data)
        = Some fam ∧
        (uid ∉ default [] (fam_members fam)) ∧
        families (store σ')
        = <[getDocRef rt "families" (inv_familyId data) :=
              patchFamily ts (arrayUnion uid) fam]> (families (store σ)) ∧
        ((r = Err "Failed to join family" ∧
          users (store σ) !! getDocRef rt "users" uid = None ∧
          users (store σ') = users (store σ) ∧
          invites (store σ') = invites (store σ)) ∨
         (∃ family usr,
            r = Ok family ∧
            id family = inv_familyId data ∧
            members family = default [] (fam_members fam) ++ [uid] ∧
            users (store σ) !! getDocRef rt "users" uid = Some usr ∧
            invites (store σ')
            = <[getDocRef rt "invites" iid := patchInvite accepted data]>
                (invites (store σ)) ∧
            ((inv_familyId data ∈ default [] (user_families usr) ∧
              users (store σ') = users (store σ)) ∨
             ((inv_familyId data ∉ default [] (user_families usr)) ∧
              ∃ ts',
                users (store σ')
                = <[getDocRef rt "users" uid :=
                      patchUser ts'
                        (default [] (user_families usr)
                         ++ [inv_familyId data]) usr]>
                    (users (store σ)))))))).
Proof.
  destruct (currentUser rt) as [uid|] eqn:Hu.
  2: { eexists _, σ. split; [by apply acceptFamilyInvite_unauthenticated|].
       left. eexists. split; [reflexivity|]. done. }
  destruct (invites (store σ) !! getDocRef rt "invites" iid)
    as [data|] eqn:Hi.
  2: { eexists _, σ. split; [by eapply acceptFamilyInvite_not_found|].
       left. eexists. split; [reflexivity|]. done. }
  destruct (getInvite_Some rt _ _ _ Hi)
    as (invite & σ1 & Hrun & _ & _ & Hfid & Hst & _).
  destruct (acceptFamilyInvite_guarded rt _ _ _ _ _ Hu Hrun)
    as (σ2 & (S2 & W2 & _) & Htree).
  rewrite Hfid, Hst in Htree.
  case_bool_decide as Hpend; cbn [negb] in Htree.
  2: { eexists _, σ2. split; [exact Htree|]. left. eexists.
       split; [reflexivity|]. done. }
  case_bool_decide as Hexp.
  { eexists _, σ2. split; [exact Htree|]. left. eexists.
    split; [reflexivity|]. done. }
  destruct (families (store σ) !! getDocRef rt "families" (inv_familyId data))
    as [fam|] eqn:Hf.
  2: { eexists _, σ2. split; [exact Htree|]. left. eexists.
       split; [reflexivity|]. done. }
  case_bool_decide as Hin.
  { eexists _, σ2. split; [exact Htree|]. left. eexists.
    split; [reflexivity|]. done. }
  destruct Htree as (family & Hid & Hm & ->).
  rewrite <- S2 in Hf, Hi.
  unfold tryCatch, mbind, M_bind.
  rewrite (commit_family rt _ _ _ _ Hf).
  set (ts := serverClock rt (length (writes σ2))).
  set (σ3 := {| store := _ |}).
  assert (Hi3 : invites (store σ3) !! getDocRef rt "invites" iid = Some data)
    by exact Hi.
  assert (F3 : families (store σ3)
               = <[getDocRef rt "families" (inv_familyId data) :=
                     patchFamily ts (arrayUnion uid) fam]>
                   (families (store σ))) by (cbn; by rewrite S2).
  assert (U3 : users (store σ3) = users (store σ)) by (cbn; by rewrite S2).
  assert (I3 : invites (store σ3) = invites (store σ)) by (cbn; by rewrite S2).
  clearbody σ3.
  destruct (users (store σ) !! getDocRef rt "users" uid) as [usr|] eqn:Husr.
  2: { assert (Husr3 : users (store σ3) !! getDocRef rt "users" uid = None)
         by (by rewrite U3).
       rewrite (addFamilyToUser_missing rt _ _ _ Husr3).
       eexists _, σ3. split; [reflexivity|]. right.
       exists uid, data, fam, ts. rewrite S2 in Hf, Hi.
       split_and!; try done. left. done. }
  assert (Husr3 : users (store σ3) !! getDocRef rt "users" uid = Some usr)
    by (by rewrite U3).
  destruct (decide (inv_familyId data ∈ default [] (user_families usr)))
    as [Hl|Hl].
  - rewrite (addFamilyToUser_listed rt _ _ _ _ Husr3 Hl),
      (commit_invite rt _ _ _ _ Hi3).
    eexists _, _. split; [reflexivity|]. right.
    exists uid, data, fam, ts. rewrite S2 in Hf, Hi.
    cbn [store users families invites]. rewrite I3.
    split_and!; try done. right. eexists _, usr.
    split; [reflexivity|]. cbn [id members]. rewrite Hm.
    split_and!; try done. left. done.
  - rewrite (addFamilyToUser_new rt _ _ _ _ Husr3 Hl),
      (commit_user rt _ _ _ _ Husr3).
    set (σ4 := {| store := _ |}).
    assert (Hi4 : invites (store σ4) !! getDocRef rt "invites" iid
                  = Some data) by exact Hi3.
    assert (I4 : invites (store σ4) = invites (store σ)) by exact I3.
    assert (F4 : families (store σ4)
                 = <[getDocRef rt "families" (inv_familyId data) :=
                       patchFamily ts (arrayUnion uid) fam]>
                     (families (store σ))) by exact F3.
    assert (U4 : users (store σ4)
                 = <[getDocRef rt "users" uid :=
                       patchUser (serverClock rt (length (writes σ3)))
                         (default [] (user_families usr)
                          ++ [inv_familyId data]) usr]>
                     (users (store σ))) by (cbn; by rewrite U3).
    clearbody σ4.
    rewrite (commit_invite rt _ _ _ _ Hi4).
    eexists _, _. split; [reflexivity|]. right.
    exists uid, data, fam, ts. rewrite S2 in Hf, Hi.
    cbn [store users families invites]. rewrite I4.
    split_and!; try done. right. eexists _, usr.
    split; [reflexivity|]. cbn [id members]. rewrite Hm.
    split_and!; try done. right. split; [done|]. by eexists.
Qed.

Lemma tryCatch_rethrown {A} (body : M A) (msg' msg : string) σ σ' :
  tryCatch body (λ _, throw msg') σ = (Err msg, σ') → msg = msg'.
Proof.
  unfold tryCatch, throw. destruct (body σ) as [[v|m] σ0]; intros [=]; done.
Qed.

(** With every precondition met and a user document for the caller, the
    call returns the family. *)
Lemma acceptFamilyInvite_succeeds (rt : Runtime) (iid uid : string)
    (σ σ1 : World) (invite : FamilyInvite) (fam : FirestoreFamily)
    (usr : FirestoreUser) :
  currentUser rt = Some uid →
  getInvite rt iid σ = (Ok (Some invite), σ1) →
  status invite = pending →
  (wallClock rt (dateReads σ1) ≤ expiresAt invite)%Z →
  families (store σ) !! getDocRef rt "families" (familyId invite) = Some fam →
  uid ∉ default [] (fam_members fam) →
  users (store σ) !! getDocRef rt "users" uid = Some usr →
  ∃ family σ',
    acceptFamilyInvite rt iid σ = (Ok family, σ') ∧
    id family = familyId invite ∧
    members family = default [] (fam_members fam) ++ [uid].
Proof.
  intros Hu Hrun Hst Hexp Hf Hout Husr.
  destruct (getInvite_inv rt _ _ _ _ Hrun) as (data & Hi & _ & _ & Hfid & _).
  destruct (acceptFamilyInvite_guarded rt _ _ _ _ _ Hu Hrun)
    as (σ2 & _ & Htree).
  rewrite (bool_decide_eq_true_2 _ Hst), bool_decide_eq_false_2, Hf,
    (bool_decide_eq_false_2 _ Hout) in Htree by lia.
  cbn [negb] in Htree. destruct Htree as (family0 & _ & _ & Hblock).
  destruct (acceptFamilyInvite_effect rt iid σ) as (r & σ' & Heff & Hcases).
  destruct Hcases as [(msg & -> & Hmsg & _)
                     |(uid' & data' & fam' & ts & Hu' & Hi' & _ & Hf' & _ & _
                       & [(_ & Hnone & _)
                         |(family & usr' & -> & Hid & Hm & _)])].
  - exfalso. apply Hmsg. rewrite Hblock in Heff.
    by apply tryCatch_rethrown in Heff.
  - exfalso. congruence.
  - exists family, σ'. rewrite Hi in Hi'. injection Hi' as <-.
    rewrite <- Hfid in Hf'. rewrite Hf in Hf'. injection Hf' as <-.
    rewrite Hu in Hu'. injection Hu' as <-.
    split; [exact Heff|]. split; [congruence|exact Hm].
Qed.

(** X12. An invite is for one use: once [acceptFamilyInvite] has
    returned a family for it, every further call for the same invite, by
    whichever signed-in user and at whatever time, is refused as already
    used and changes nothing. *)
Theorem accepted_invite_is_spent (rt rt' : Runtime) (inviteId someone : string)
    (σ σ1 : World) (family : Family) :
  importMetaEnv rt' = importMetaEnv rt →
  currentUser rt' = Some someone →
  acceptFamilyInvite rt inviteId σ = (Ok family, σ1) →
  ∃ σ2,
    acceptFamilyInvite rt' inviteId σ1
    = (Err "This invite has already been used or expired", σ2) ∧
    store σ2 = store σ1 ∧ writes σ2 = writes σ1.
Proof.
  intros Henv Hu' Hacc.
  destruct (acceptFamilyInvite_effect rt inviteId σ)
    as (r & σ' & Heff & Hcases).
  rewrite Hacc in Heff. injection Heff as <- <-.
  destruct Hcases as [(msg & [=] & _)
                     |(uid & data & fam & ts & _ & _ & _ & _ & _ & _
                       & [([=] & _)|(f & usr & _ & _ & _ & _ & Hinv & _)])].
  assert (Hi1 : invites (store σ1) !! getDocRef rt' "invites" inviteId
                = Some (patchInvite accepted data)).
  { rewrite (getDocRef_same_env rt rt' _ _ Henv), Hinv.
    apply lookup_insert_eq. }
  destruct (getInvite_Some rt' _ _ _ Hi1)
    as (invite & σa & Hrun & _ & _ & _ & Hst & _).
  destruct (acceptFamilyInvite_guarded rt' _ _ _ _ _ Hu' Hrun)
    as (σ2 & (S2 & W2 & _) & Htree).
  rewrite bool_decide_eq_false_2 in Htree by (rewrite Hst; discriminate).
  exists σ2. done.
Qed.

Lemma accepted_invite_is_spent_witness :
  let rt := Sample.runtime (Some "u2") Sample.utc in
  let rt' := Sample.runtime (Some "u3") Sample.berlin in
  let first := acceptFamilyInvite rt "i1" Sample.invited in
  ∃ family,
    first = (Ok family, first.2) ∧
    ∃ σ2,
      acceptFamilyInvite rt' "i1" first.2
      = (Err "This invite has already been used or expired", σ2).
Proof.
  cbn zeta.
  pose (first := acceptFamilyInvite (Sample.runtime (Some "u2") Sample.utc)
                   "i1" Sample.invited).
  assert (H : first = (Ok {| id := "f1"; name := "Smith Family";
                             createdBy := "u1"; members := ["u1"; "u2"];
                             createdAt := 1700000000000;
                             updatedAt := 1700000000000 |}, first.2))
    by (vm_compute; reflexivity).
  eexists. split; [exact H|].
  destruct (accepted_invite_is_spent
              (Sample.runtime (Some "u2") Sample.utc)
              (Sample.runtime (Some "u3") Sample.berlin)
              "i1" "u3" Sample.invited first.2 _ eq_refl eq_refl H)
    as (σ2 & Hagain & _).
  exists σ2. exact Hagain.
Defined.

(** The invite document that was written is the one [getInvite]
    reads. *)
Lemma getInvite_stored (rt : Runtime) (iid : string) (σ : World)
    (data : FirestoreInvite) (created expires : Z) :
  invites (store σ) !! getDocRef rt "invites" iid = Some data →
  inv_createdAt data = Some created → inv_expiresAt data = Some expires →
  getInvite rt iid σ
  = (Ok (Some {| invite_id := iid;
                 familyId := inv_familyId data;
                 familyName := inv_familyName data;
                 invitedBy := inv_invitedBy data;
                 invitedEmail := inv_invitedEmail data;
                 invite_createdAt := created;
                 expiresAt := expires;
                 status := inv_status data |}), σ).
Proof.
  intros Hi Hc He. unfold getInvite, tryCatch, mbind, M_bind, getDoc_invite.
  rewrite Hi, Hc, He. reflexivity.
Qed.

(** X13. An invite that a member created can be accepted until it
    expires.  A signed-in user with a user document who is not a member
    of the family, presenting the invite when the clock reads at most its
    [expiresAt], joins: the call returns the family with the user and the
    inviter among its members.  When the clock reads more, the call is
    refused as expired and changes nothing. *)
Theorem created_invite_is_accepted_until_it_expires (rt rt' : Runtime)
    (fid uid : string) (σ σ1 : World) (invite : FamilyInvite)
    (usr : FirestoreUser) :
  importMetaEnv rt' = importMetaEnv rt →
  createFamilyInvite rt fid σ = (Ok invite, σ1) →
  currentUser rt' = Some uid →
  users (store σ) !! getDocRef rt "users" uid = Some usr →
  (∀ fam, families (store σ) !! getDocRef rt "families" fid = Some fam →
          uid ∉ default [] (fam_members fam)) →
  let now := wallClock rt' (dateReads σ1) in
  ((now ≤ expiresAt invite)%Z →
   ∃ family σ2,
     acceptFamilyInvite rt' (invite_id invite) σ1 = (Ok family, σ2) ∧
     id family = fid ∧ uid ∈ members family ∧
     invitedBy invite ∈ members family) ∧
  ((expiresAt invite < now)%Z →
   ∃ σ2,
     acceptFamilyInvite rt' (invite_id invite) σ1
     = (Err "This invite has expired", σ2) ∧
     store σ2 = store σ1 ∧ writes σ2 = writes σ1).
Proof.
  intros Henv Hrun Hu' Husr Hout now.
  destruct (createFamilyInvite_cases rt fid σ)
    as [(msg & σ0 & Hrun' & _)
       |(inviter & fam & invite' & σ' & _ & Hf & Hin & Hrun' & _ & _ & _
         & Hby & _ & _ & HU & HF & Hinv & _)];
    rewrite Hrun in Hrun'; [discriminate Hrun'|].
  injection Hrun' as <- <-.
  assert (Hi1 : invites (store σ1)
                  !! getDocRef rt' "invites" (invite_id invite) = Some _)
    by (rewrite (getDocRef_same_env rt rt' _ _ Henv), Hinv;
        apply lookup_insert_eq).
  pose proof (getInvite_stored rt' _ _ _ _ _ Hi1 eq_refl eq_refl) as Hget.
  cbn [inv_familyId inv_familyName inv_invitedBy inv_invitedEmail inv_status]
    in Hget.
  split.
  - intros Hnow.
    edestruct (acceptFamilyInvite_succeeds rt' (invite_id invite) uid σ1 σ1 _
                 fam usr Hu' Hget eq_refl Hnow)
      as (family & σ2 & Hacc & Hid & Hm).
    + cbn [familyId]. by rewrite (getDocRef_same_env rt rt' _ _ Henv), HF.
    + by apply Hout.
    + by rewrite (getDocRef_same_env rt rt' _ _ Henv), HU.
    + exists family, σ2. split; [exact Hacc|]. split; [exact Hid|].
      rewrite Hm, Hby. split; apply elem_of_app.
      * right. by apply list_elem_of_singleton.
      * by left.
  - intros Hlate.
    destruct (acceptFamilyInvite_guarded rt' _ _ _ _ _ Hu' Hget)
      as (σ2 & (S2 & W2 & _) & Htree).
    cbn [status expiresAt] in Htree.
    rewrite bool_decide_eq_true_2, bool_decide_eq_true_2 in Htree by done.
    exists σ2. done.
Qed.

Lemma created_invite_is_accepted_until_it_expires_witness :
  let rt := Sample.runtime (Some "u1") Sample.utc in
  let rt' := Sample.runtime (Some "u2") Sample.utc in
  let run := createFamilyInvite rt "f1" Sample.invited in
  ∃ invite,
    run = (Ok invite, run.2) ∧
    (wallClock rt' (dateReads run.2) ≤ expiresAt invite)%Z ∧
    ∃ family σ2,
      acceptFamilyInvite rt' (invite_id invite) run.2 = (Ok family, σ2) ∧
      "u2" ∈ members family.
Proof.
  cbn zeta.
  pose (rt := Sample.runtime (Some "u1") Sample.utc).
  pose (rt' := Sample.runtime (Some "u2") Sample.utc).
  pose (run := createFamilyInvite rt "f1" Sample.invited).
  assert (Hrun : run = (Ok {| invite_id := "i2"; familyId := "f1";
                              familyName := "Smith Family"; invitedBy := "u1";
                              invitedEmail := None;
                              invite_createdAt := Sample.noon;
                              expiresAt := 1730455200000;
                              status := pending |}, run.2))
    by (vm_compute; reflexivity).
  assert (Hnow : (wallClock rt' (dateReads run.2) ≤ 1730455200000)%Z)
    by (vm_compute; discriminate).
  eexists. split; [exact Hrun|]. split; [exact Hnow|].
  destruct (created_invite_is_accepted_until_it_expires rt rt' "f1" "u2"
              Sample.invited run.2 _ (Sample.profile "b@x.org" [])
              eq_refl Hrun eq_refl) as [Hok _].
  - vm_compute; reflexivity.
  - intros fam Hf.
    assert (Hfam : Some fam = Some (Sample.smiths ["u1"]))
      by (rewrite <- Hf; vm_compute; reflexivity).
    injection Hfam as ->. cbn.
    intros H%list_elem_of_singleton. discriminate H.
  - destruct (Hok Hnow) as (family & σ2 & Hacc & _ & Hin & _).
    exists family, σ2. split; [exact Hacc|exact Hin].
Defined.

(** X14. [acceptFamilyInvite] touches at most three documents: the
    invite, the family the invite names, and the caller's user document.
    Whatever it returns or throws, every other invite, family and user
    document is what it was, and no document is deleted. *)
Theorem acceptFamilyInvite_leaves_the_rest (rt : Runtime) (inviteId : string)
    (σ : World) :
  let σ' := (acceptFamilyInvite rt inviteId σ).2 in
  (∀ ref, ref ≠ getDocRef rt "invites" inviteId →
     invites (store σ') !! ref = invites (store σ) !! ref) ∧
  (∀ ref,
     (∀ data, invites (store σ) !! getDocRef rt "invites" inviteId = Some data →
              ref ≠ getDocRef rt "families" (inv_familyId data)) →
     families (store σ') !! ref = families (store σ) !! ref) ∧
  (∀ ref,
     (∀ uid, currentUser rt = Some uid → ref ≠ getDocRef rt "users" uid) →
     users (store σ') !! ref = users (store σ) !! ref) ∧
  dom (invites (store σ')) = dom (invites (store σ)) ∧
  dom (families (store σ')) = dom (families (store σ)) ∧
  dom (users (store σ')) = dom (users (store σ)).
Proof.
  cbn zeta.
  destruct (acceptFamilyInvite_effect rt inviteId σ)
    as (r & σ' & -> & Hcases). cbn [snd].
  destruct Hcases as [(msg & _ & _ & -> & _)
                     |(uid & data & fam & ts & Hu & Hi & _ & Hf & _ & HF
                       & Hrest)].
  { split_and!; done. }
  assert (HdF : dom (families (store σ')) = dom (families (store σ)))
    by (rewrite HF; apply dom_insert_lookup_L; eauto).
  assert (HlF : ∀ ref,
            (∀ data0,
               invites (store σ) !! getDocRef rt "invites" inviteId
               = Some data0 →
               ref ≠ getDocRef rt "families" (inv_familyId data0)) →
            families (store σ') !! ref = families (store σ) !! ref).
  { intros ref Href. rewrite HF, lookup_insert_ne; [done|].
    intros Heq. by apply (Href data Hi). }
  destruct Hrest as [(_ & _ & HU & HI)
                    |(family & usr & _ & _ & _ & Husr & HI & HU)].
  { rewrite HU, HI. split_and!; auto. }
  assert (HdI : dom (invites (store σ')) = dom (invites (store σ)))
    by (rewrite HI; apply dom_insert_lookup_L; eauto).
  assert (HlI : ∀ ref, ref ≠ getDocRef rt "invites" inviteId →
            invites (store σ') !! ref = invites (store σ) !! ref).
  { intros ref Href. by rewrite HI, lookup_insert_ne. }
  destruct HU as [(_ & HU)|(_ & ts' & HU)].
  { rewrite HU. split_and!; auto. }
  split_and!; auto.
  - intros ref Href. rewrite HU, lookup_insert_ne; [done|].
    intros Heq. by apply (Href uid).
  - rewrite HU. apply dom_insert_lookup_L. eauto.
Qed.

(** X15. [acceptFamilyInvite] only ever adds to a family: whatever it
    returns or throws, every family is still there with the name and the
    creator it had, and everybody who was a member of it is a member of
    it. *)
Theorem acceptFamilyInvite_only_adds_members (rt : Runtime)
    (inviteId ref : string) (σ : World) (fam : FirestoreFamily) :
  families (store σ) !! ref = Some fam →
  ∃ fam',
    families (store (acceptFamilyInvite rt inviteId σ).2) !! ref = Some fam' ∧
    fam_name fam' = fam_name fam ∧
    fam_createdBy fam' = fam_createdBy fam ∧
    default [] (fam_members fam) ⊆ default [] (fam_members fam').
Proof.
  intros Hfam.
  destruct (acceptFamilyInvite_effect rt inviteId σ)
    as (r & σ' & -> & Hcases). cbn [snd].
  destruct Hcases as [(msg & _ & _ & -> & _)
                     |(uid & data & fam0 & ts & _ & _ & _ & Hf & Hout & -> & _)].
  { by exists fam. }
  destruct (decide (ref = getDocRef rt "families" (inv_familyId data)))
    as [->|Hother].
  - rewrite lookup_insert_eq. eexists. split; [reflexivity|].
    rewrite Hf in Hfam. injection Hfam as ->.
    split; [reflexivity|]. split; [reflexivity|]. cbn.
    rewrite (bool_decide_eq_false_2 _ Hout).
    intros m Hm. apply elem_of_app. by left.
  - rewrite lookup_insert_ne by done. by exists fam.
Qed.

Lemma acceptFamilyInvite_only_adds_members_witness :
  let rt := Sample.runtime (Some "u2") Sample.utc in
  families (store Sample.invited) !! getDocRef rt "families" "f1"
  = Some (Sample.smiths ["u1"]) ∧
  ∃ fam',
    families (store (acceptFamilyInvite rt "i1" Sample.invited).2)
      !! getDocRef rt "families" "f1" = Some fam' ∧
    fam_createdBy fam' = "u1".
Proof.
  cbn zeta.
  assert (H : families (store Sample.invited)
                !! getDocRef (Sample.runtime (Some "u2") Sample.utc)
                     "families" "f1"
              = Some (Sample.smiths ["u1"])) by (vm_compute; reflexivity).
  split; [exact H|].
  destruct (acceptFamilyInvite_only_adds_members
              (Sample.runtime (Some "u2") Sample.utc) "i1" _ _ _ H)
    as (fam' & Hf & _ & Hc & _).
  exists fam'. split; [exact Hf|exact Hc].
Defined.

(** ** Member operations, continued *)

(** Everything [removeFamilyMember] and [leaveFamily] can do to the
    store: nothing, when a guard throws; or one write, which replaces the
    members of the family by those that are not the one who goes. *)
Lemma removeFamilyMember_effect (rt : Runtime) (fid mid : string) (σ : World) :
  ∃ r σ',
    removeFamilyMember rt fid mid σ = (r, σ') ∧
    ((throws r ∧ store σ' = store σ ∧ writes σ' = writes σ) ∨
     (∃ fam ts,
        r = Ok tt ∧
        currentUser rt = Some (fam_createdBy fam) ∧
        families (store σ) !! getDocRef rt "families" fid = Some fam ∧
        mid ≠ fam_createdBy fam ∧
        users (store σ') = users (store σ) ∧
        invites (store σ') = invites (store σ) ∧
        families (store σ')
        = <[getDocRef rt "families" fid :=
              patchFamily ts
                (arrayValue
                   (filter (λ m, m ≠ mid) (default [] (fam_members fam))))
                fam]> (families (store σ)))).
Proof.
  destruct (currentUser rt) as [uid|] eqn:Hu.
  2: { unfold removeFamilyMember, getCurrentAuthUser. rewrite Hu.
       eexists _, σ. split; [reflexivity|]. left. split; [by eexists|done]. }
  destruct (families (store σ) !! getDocRef rt "families" fid)
    as [fam|] eqn:Hf.
  2: { unfold removeFamilyMember, getCurrentAuthUser, mbind, M_bind.
       rewrite Hu, (getFamilyById_None rt _ _ Hf).
       eexists _, σ. split; [reflexivity|]. left. split; [by eexists|done]. }
  destruct (removeFamilyMember_guarded rt fid mid σ uid fam Hu Hf)
    as (σ1 & (S1 & W1 & _) & ->).
  case_bool_decide as Hc; cbn [negb].
  2: { eexists _, σ1. split; [reflexivity|]. left.
       split; [by eexists|done]. }
  case_bool_decide as Hm.
  { eexists _, σ1. split; [reflexivity|]. left. split; [by eexists|done]. }
  assert (Hf1 : families (store σ1) !! getDocRef rt "families" fid = Some fam)
    by (by rewrite S1).
  rewrite (commit_family rt _ _ _ _ Hf1).
  eexists _, _. split; [reflexivity|]. right. subst uid.
  exists fam, (serverClock rt (length (writes σ1))).
  cbn [store users families invites]. rewrite S1. done.
Qed.

Lemma leaveFamily_effect (rt : Runtime) (fid : string) (σ : World) :
  ∃ r σ',
    leaveFamily rt fid σ = (r, σ') ∧
    ((throws r ∧ store σ' = store σ ∧ writes σ' = writes σ) ∨
     (∃ uid fam ts,
        r = Ok tt ∧
        currentUser rt = Some uid ∧
        families (store σ) !! getDocRef rt "families" fid = Some fam ∧
        uid ≠ fam_createdBy fam ∧
        users (store σ') = users (store σ) ∧
        invites (store σ') = invites (store σ) ∧
        families (store σ')
        = <[getDocRef rt "families" fid :=
              patchFamily ts
                (arrayValue
                   (filter (λ m, m ≠ uid) (default [] (fam_members fam))))
                fam]> (families (store σ)))).
Proof.
  destruct (currentUser rt) as [uid|] eqn:Hu.
  2: { unfold leaveFamily, getCurrentAuthUser. rewrite Hu.
       eexists _, σ. split; [reflexivity|]. left. split; [by eexists|done]. }
  destruct (families (store σ) !! getDocRef rt "families" fid)
    as [fam|] eqn:Hf.
  2: { unfold leaveFamily, getCurrentAuthUser, mbind, M_bind.
       rewrite Hu, (getFamilyById_None rt _ _ Hf).
       eexists _, σ. split; [reflexivity|]. left. split; [by eexists|done]. }
  destruct (leaveFamily_guarded rt fid σ uid fam Hu Hf)
    as (σ1 & (S1 & W1 & _) & ->).
  case_bool_decide as Hc.
  { eexists _, σ1. split; [reflexivity|]. left. split; [by eexists|done]. }
  assert (Hf1 : families (store σ1) !! getDocRef rt "families" fid = Some fam)
    by (by rewrite S1).
  rewrite (commit_family rt _ _ _ _ Hf1).
  eexists _, _. split; [reflexivity|]. right.
  exists uid, fam, (serverClock rt (length (writes σ1))).
  cbn [store users families invites]. rewrite S1.
  split_and!; done.
Qed.

(** X16. No operation on members introduces a duplicate: a family whose
    [members] array has no duplicates has none after any call of
    [acceptFamilyInvite], [removeFamilyMember] or [leaveFamily]. *)
Theorem members_stay_without_duplicates (rt : Runtime) (ref : string)
    (σ : World) (fam : FirestoreFamily) (anyInvite anyFamily anyone : string) :
  families (store σ) !! ref = Some fam →
  NoDup (default [] (fam_members fam)) →
  (∃ fam',
     families (store (acceptFamilyInvite rt anyInvite σ).2) !! ref = Some fam' ∧
     NoDup (default [] (fam_members fam'))) ∧
  (∃ fam',
     families (store (removeFamilyMember rt anyFamily anyone σ).2) !! ref
     = Some fam' ∧
     NoDup (default [] (fam_members fam'))) ∧
  (∃ fam',
     families (store (leaveFamily rt anyFamily σ).2) !! ref = Some fam' ∧
     NoDup (default [] (fam_members fam'))).
Proof.
  intros Hfam Hnd. split_and!.
  - destruct (acceptFamilyInvite_effect rt anyInvite σ)
      as (r & σ' & -> & Hcases). cbn [snd].
    destruct Hcases as [(msg & _ & _ & -> & _)
                       |(uid & data & fam0 & ts & _ & _ & _ & Hf & Hout & ->
                         & _)].
    { by exists fam. }
    destruct (decide (ref = getDocRef rt "families" (inv_familyId data)))
      as [->|Hother].
    + rewrite lookup_insert_eq. eexists. split; [reflexivity|].
      rewrite Hf in Hfam. injection Hfam as ->. cbn.
      rewrite (bool_decide_eq_false_2 _ Hout).
      apply NoDup_app. split; [done|]. split; [|apply NoDup_singleton].
      intros x Hx ->%list_elem_of_singleton. done.
    + rewrite lookup_insert_ne by done. by exists fam.
  - destruct (removeFamilyMember_effect rt anyFamily anyone σ)
      as (r & σ' & -> & Hcases). cbn [snd].
    destruct Hcases as [(_ & -> & _)|(fam0 & ts & _ & _ & Hf & _ & _ & _ & ->)].
    { by exists fam. }
    destruct (decide (ref = getDocRef rt "families" anyFamily))
      as [->|Hother].
    + rewrite lookup_insert_eq. eexists. split; [reflexivity|].
      rewrite Hf in Hfam. injection Hfam as ->. cbn.
      by apply NoDup_filter.
    + rewrite lookup_insert_ne by done. by exists fam.
  - destruct (leaveFamily_effect rt anyFamily σ)
      as (r & σ' & -> & Hcases). cbn [snd].
    destruct Hcases
      as [(_ & -> & _)|(uid & fam0 & ts & _ & _ & Hf & _ & _ & _ & ->)].
    { by exists fam. }
    destruct (decide (ref = getDocRef rt "families" anyFamily))
      as [->|Hother].
    + rewrite lookup_insert_eq. eexists. split; [reflexivity|].
      rewrite Hf in Hfam. injection Hfam as ->. cbn.
      by apply NoDup_filter.
    + rewrite lookup_insert_ne by done. by exists fam.
Qed.

Lemma members_stay_without_duplicates_witness :
  let rt := Sample.runtime (Some "u2") Sample.utc in
  families (store Sample.invited) !! getDocRef rt "families" "f1"
  = Some (Sample.smiths ["u1"]) ∧
  NoDup (default [] (fam_members (Sample.smiths ["u1"]))) ∧
  ∃ fam',
    families (store (acceptFamilyInvite rt "i1" Sample.invited).2)
      !! getDocRef rt "families" "f1" = Some fam' ∧
    NoDup (default [] (fam_members fam')).
Proof.
  cbn zeta.
  assert (H : families (store Sample.invited)
                !! getDocRef (Sample.runtime (Some "u2") Sample.utc)
                     "families" "f1"
              = Some (Sample.smiths ["u1"])) by (vm_compute; reflexivity).
  assert (Hnd : NoDup (default [] (fam_members (Sample.smiths ["u1"]))))
    by (cbn; apply NoDup_singleton).
  split; [exact H|]. split; [exact Hnd|].
  exact (proj1 (members_stay_without_duplicates
                  (Sample.runtime (Some "u2") Sample.utc) _ _ _
                  "i1" "f1" "u1" H Hnd)).
Defined.

Lemma filter_absent (x : string) (l : list string) :
  x ∉ l → filter (λ m, m ≠ x) l = l.
Proof.
  induction l as [|y l IH]; [done|].
  intros Hx. apply not_elem_of_cons in Hx as [Hne Hl].
  rewrite filter_cons_True by congruence. f_equal. by apply IH.
Qed.

(** X17. A member who is not the creator can leave: [leaveFamily]
    succeeds, the caller is no longer a member, everybody else who was a
    member still is and nobody else has become one, and the creator is
    unchanged.  No user document and no other family is touched, so the
    caller's own [families] array still lists the family. *)
Theorem leaveFamily_removes_only_the_caller (rt : Runtime) (fid uid : string)
    (σ : World) (fam : FirestoreFamily) :
  currentUser rt = Some uid →
  families (store σ) !! getDocRef rt "families" fid = Some fam →
  uid ≠ fam_createdBy fam →
  ∃ σ' fam',
    leaveFamily rt fid σ = (Ok tt, σ') ∧
    families (store σ') !! getDocRef rt "families" fid = Some fam' ∧
    (uid ∉ default [] (fam_members fam')) ∧
    (∀ m, m ≠ uid →
       m ∈ default [] (fam_members fam') ↔ m ∈ default [] (fam_members fam)) ∧
    fam_createdBy fam' = fam_createdBy fam ∧
    users (store σ') = users (store σ) ∧
    invites (store σ') = invites (store σ) ∧
    (∀ ref, ref ≠ getDocRef rt "families" fid →
       families (store σ') !! ref = families (store σ) !! ref).
Proof.
  intros Hu Hf Hne.
  destruct (leaveFamily_guarded rt fid σ uid fam Hu Hf)
    as (σ1 & (S1 & _ & _) & ->).
  rewrite bool_decide_eq_false_2 by congruence.
  assert (Hf1 : families (store σ1) !! getDocRef rt "families" fid = Some fam)
    by (by rewrite S1).
  rewrite (commit_family rt _ _ _ _ Hf1).
  eexists _, _. split; [reflexivity|]. cbn [store users families invites].
  split; [apply lookup_insert_eq|]. cbn. rewrite S1. split_and!; try done.
  - rewrite list_elem_of_filter. by intros [? _].
  - intros m Hm. rewrite list_elem_of_filter. intuition.
  - intros ref Href. by rewrite lookup_insert_ne.
Qed.

Lemma leaveFamily_removes_only_the_caller_witness :
  let rt := Sample.runtime (Some "u2") Sample.utc in
  currentUser rt = Some "u2" ∧
  families (store Sample.joined) !! getDocRef rt "families" "f1"
  = Some (Sample.smiths ["u1"; "u2"]) ∧
  "u2" ≠ fam_createdBy (Sample.smiths ["u1"; "u2"]) ∧
  ∃ σ' fam',
    leaveFamily rt "f1" Sample.joined = (Ok tt, σ') ∧
    families (store σ') !! getDocRef rt "families" "f1" = Some fam' ∧
    ("u2" ∉ default [] (fam_members fam')).
Proof.
  cbn zeta.
  assert (Hf : families (store Sample.joined)
                 !! getDocRef (Sample.runtime (Some "u2") Sample.utc)
                      "families" "f1"
               = Some (Sample.smiths ["u1"; "u2"]))
    by (vm_compute; reflexivity).
  assert (Hne : "u2" ≠ fam_createdBy (Sample.smiths ["u1"; "u2"]))
    by discriminate.
  split; [reflexivity|]. split; [exact Hf|]. split; [exact Hne|].
  destruct (leaveFamily_removes_only_the_caller
              (Sample.runtime (Some "u2") Sample.utc) "f1" "u2" _ _
              eq_refl Hf Hne) as (σ' & fam' & Hrun & Hf' & Hout & _).
  exists σ', fam'. split; [exact Hrun|]. split; [exact Hf'|exact Hout].
Defined.

(** X18. Removing or leaving without being a member is not an error.
    When the creator removes somebody who is not a member, and when a
    user who is not a member leaves, the call succeeds and still writes
    the family document once, with the same members. *)
Theorem non_members_are_removed_silently (rt : Runtime) (fid who : string)
    (σ : World) (fam : FirestoreFamily) :
  families (store σ) !! getDocRef rt "families" fid = Some fam →
  who ≠ fam_createdBy fam →
  who ∉ default [] (fam_members fam) →
  (currentUser rt = Some (fam_createdBy fam) →
   ∃ σ' fam',
     removeFamilyMember rt fid who σ = (Ok tt, σ') ∧
     length (writes σ') = S (length (writes σ)) ∧
     families (store σ') !! getDocRef rt "families" fid = Some fam' ∧
     fam_members fam' = Some (default [] (fam_members fam))) ∧
  (currentUser rt = Some who →
   ∃ σ' fam',
     leaveFamily rt fid σ = (Ok tt, σ') ∧
     length (writes σ') = S (length (writes σ)) ∧
     families (store σ') !! getDocRef rt "families" fid = Some fam' ∧
     fam_members fam' = Some (default [] (fam_members fam))).
Proof.
  intros Hf Hne Hout. split; intros Hu.
  - destruct (removeFamilyMember_guarded rt fid who σ _ fam Hu Hf)
      as (σ1 & (S1 & W1 & _) & ->).
    rewrite bool_decide_eq_true_2, bool_decide_eq_false_2 by done.
    cbn [negb].
    assert (Hf1 : families (store σ1) !! getDocRef rt "families" fid
                  = Some fam) by (by rewrite S1).
    rewrite (commit_family rt _ _ _ _ Hf1), (filter_absent _ _ Hout).
    eexists _, _. split; [reflexivity|]. cbn [store families writes].
    split; [rewrite length_app, W1; cbn; lia|].
    split; [apply lookup_insert_eq|reflexivity].
  - destruct (leaveFamily_guarded rt fid σ _ fam Hu Hf)
      as (σ1 & (S1 & W1 & _) & ->).
    rewrite bool_decide_eq_false_2 by congruence.
    assert (Hf1 : families (store σ1) !! getDocRef rt "families" fid
                  = Some fam) by (by rewrite S1).
    rewrite (commit_family rt _ _ _ _ Hf1), (filter_absent _ _ Hout).
    eexists _, _. split; [reflexivity|]. cbn [store families writes].
    split; [rewrite length_app, W1; cbn; lia|].
    split; [apply lookup_insert_eq|reflexivity].
Qed.

Lemma non_members_are_removed_silently_witness :
  let rt := Sample.runtime (Some "u2") Sample.utc in
  families (store Sample.invited) !! getDocRef rt "families" "f1"
  = Some (Sample.smiths ["u1"]) ∧
  "u2" ≠ fam_createdBy (Sample.smiths ["u1"]) ∧
  ("u2" ∉ default [] (fam_members (Sample.smiths ["u1"]))) ∧
  ∃ σ' fam',
    leaveFamily rt "f1" Sample.invited = (Ok tt, σ') ∧
    families (store σ') !! getDocRef rt "families" "f1" = Some fam' ∧
    fam_members fam' = Some ["u1"].
Proof.
  cbn zeta.
  assert (Hf : families (store Sample.invited)
                 !! getDocRef (Sample.runtime (Some "u2") Sample.utc)
                      "families" "f1"
               = Some (Sample.smiths ["u1"])) by (vm_compute; reflexivity).
  assert (Hne : "u2" ≠ fam_createdBy (Sample.smiths ["u1"])) by discriminate.
  assert (Hout : "u2" ∉ default [] (fam_members (Sample.smiths ["u1"])))
    by (cbn; intros H%list_elem_of_singleton; discriminate H).
  split; [exact Hf|]. split; [exact Hne|]. split; [exact Hout|].
  destruct (non_members_are_removed_silently
              (Sample.runtime (Some "u2") Sample.utc) "f1" "u2" _ _
              Hf Hne Hout) as [_ Hleave].
  destruct (Hleave eq_refl) as (σ' & fam' & Hrun & _ & Hf' & Hm).
  exists σ', fam'. split; [exact Hrun|]. split; [exact Hf'|exact Hm].
Defined.

(** ** The family with its members *)

Section FamilyDetail.
Context (rt : Runtime).

Lemma memberDetail_run (family : Family) (memberId : string) σ σ0 :
  store σ0 = store σ →
  ∃ m σ1,
    memberDetail rt family memberId σ0 = (Ok m, σ1) ∧ readOnly σ0 σ1 ∧
    describes rt σ (createdBy family) memberId m.
Proof.
  intros S0. unfold memberDetail, mbind, M_bind, describes. rewrite <- S0.
  destruct (users (store σ0) !! getDocRef rt "users" memberId)
    as [u|] eqn:Hu.
  - destruct (getUserById_Some rt _ _ _ Hu)
      as (user & σ1 & -> & RO & _ & He & Hn & Hp & _).
    eexists _, σ1. split; [reflexivity|]. split; [exact RO|].
    cbn. rewrite He, Hn, Hp. split; [reflexivity|]. split; [|done].
    case_bool_decide; split; (done || congruence).
  - rewrite (getUserById_None rt _ _ Hu).
    eexists _, σ0. split; [reflexivity|]. split; [done|].
    cbn. split; [reflexivity|]. split; [|done].
    case_bool_decide; split; (done || congruence).
Qed.

Lemma bind_run {A B} (m : M A) (k : A → M B) σ :
  (m ≫= k) σ
  = match m σ with
    | (Ok v, σ') => k v σ'
    | (Err msg, σ') => (Err msg, σ')
    end.
Proof. reflexivity. Qed.

Lemma getFamilyWithMembers_None fid σ :
  families (store σ) !! getDocRef rt "families" fid = None →
  getFamilyWithMembers rt fid σ = (Ok None, σ).
Proof.
  intros Hf. unfold getFamilyWithMembers, mbind, M_bind.
  by rewrite (getFamilyById_None rt _ _ Hf).
Qed.

Lemma getFamilyWithMembers_Some fid σ fam :
  families (store σ) !! getDocRef rt "families" fid = Some fam →
  ∃ detail σ',
    getFamilyWithMembers rt fid σ = (Ok (Some detail), σ') ∧
    readOnly σ σ' ∧
    id (family_of detail) = fid ∧
    name (family_of detail) = fam_name fam ∧
    createdBy (family_of detail) = fam_createdBy fam ∧
    members (family_of detail) = default [] (fam_members fam) ∧
    Forall2 (describes rt σ (fam_createdBy fam))
      (default [] (fam_members fam)) (memberDetails detail).
Proof.
  intros Hf. unfold getFamilyWithMembers. rewrite bind_run.
  destruct (getFamilyById_Some rt _ _ _ Hf)
    as (family & σ1 & -> & RO1 & Hid & Hn & Hc & Hm).
  rewrite bind_run.
  destruct (mapM_reads (memberDetail rt family)
              (describes rt σ (createdBy family)) (members family) σ1)
    as (ms & σ2 & -> & RO2 & Hall).
  { intros x σ0 S0. apply memberDetail_run.
    destruct RO1 as (S1 & _). congruence. }
  eexists _, σ2. split; [reflexivity|].
  split; [by eapply readOnly_trans|]. cbn [family_of memberDetails].
  rewrite <- Hc, <- Hm. done.
Qed.
End FamilyDetail.

(** X19. [getFamilyWithMembers] describes the members of a family in the
    order of its [members] array, one entry for each: the entry has the
    member's id, the role [admin] exactly when the member is the creator,
    and the e-mail, photo and display name of the member's profile; a
    member without a profile, or with an empty display name, is shown as
    ["Unknown"].  The call writes nothing.  For a family that does not
    exist it returns [null]. *)
Theorem getFamilyWithMembers_describes_each_member (rt : Runtime)
    (fid : string) (σ : World) :
  match families (store σ) !! getDocRef rt "families" fid with
  | None => getFamilyWithMembers rt fid σ = (Ok None, σ)
  | Some fam =>
      ∃ detail σ',
        getFamilyWithMembers rt fid σ = (Ok (Some detail), σ') ∧
        store σ' = store σ ∧ writes σ' = writes σ ∧
        members (family_of detail) = default [] (fam_members fam) ∧
        member_id <$> memberDetails detail = default [] (fam_members fam) ∧
        Forall2 (describes rt σ (fam_createdBy fam))
          (default [] (fam_members fam)) (memberDetails detail) ∧
        (∀ m, m ∈ memberDetails detail →
              role m = admin ↔ member_id m = fam_createdBy fam)
  end.
Proof.
  destruct (families (store σ) !! getDocRef rt "families" fid)
    as [fam|] eqn:Hf; [|by apply getFamilyWithMembers_None].
  destruct (getFamilyWithMembers_Some rt fid σ fam Hf)
    as (detail & σ' & Hrun & (S' & W' & _) & _ & _ & _ & Hm & Hall).
  exists detail, σ'. split_and!; try done.
  - clear -Hall. induction Hall as [|x m l ms Hx _ IH]; [done|].
    cbn. f_equal; [by destruct Hx|exact IH].
  - intros m Hin. clear -Hall Hin.
    induction Hall as [|x m0 l ms Hx _ IH]; [by apply elem_of_nil in Hin|].
    apply elem_of_cons in Hin as [->|Hin]; [|by apply IH].
    destruct Hx as (Hid & Hrole & _). by rewrite Hid.
Qed.

(** ** The family page *)

(** X20. The family page offers what the service accepts.  For the
    family it has loaded with [getFamilyWithMembers], and while the
    family document is as it was loaded, the page of the signed-in user
    shows the Remove button beside exactly those members whose removal
    [removeFamilyMember] carries out, and shows the Leave button exactly
    when [leaveFamily] carries the leaving out; where a button is not
    shown, the service would throw. *)
Theorem family_page_offers_what_the_service_accepts (rt : Runtime)
    (fid : string) (σ σ1 : World) (detail : FamilyWithMembers) (user : User) :
  getFamilyWithMembers rt fid σ = (Ok (Some detail), σ1) →
  currentUser rt = Some (usr_id user) →
  (∀ m, m ∈ memberDetails detail →
     if removeButtonShown (Some user) detail m
     then (removeFamilyMember rt fid (member_id m) σ1).1 = Ok tt
     else throws (removeFamilyMember rt fid (member_id m) σ1).1) ∧
  (if leaveButtonShown (Some user) detail
   then (leaveFamily rt fid σ1).1 = Ok tt
   else throws (leaveFamily rt fid σ1).1).
Proof.
  intros Hload Hu.
  destruct (families (store σ) !! getDocRef rt "families" fid)
    as [fam|] eqn:Hf.
  2: { rewrite (getFamilyWithMembers_None rt _ _ Hf) in Hload.
       discriminate Hload. }
  destruct (getFamilyWithMembers_Some rt fid σ fam Hf)
    as (detail' & σ' & Hrun & (S' & _) & _ & _ & Hc & _ & Hall).
  rewrite Hload in Hrun. injection Hrun as <- <-.
  assert (Hf1 : families (store σ1) !! getDocRef rt "families" fid = Some fam)
    by (by rewrite S').
  unfold removeButtonShown, leaveButtonShown, isAdmin. rewrite Hc.
  split.
  - intros m Hin.
    assert (Hrole : role m = admin ↔ member_id m = fam_createdBy fam).
    { clear -Hall Hin.
      induction Hall as [|x m0 l ms Hx _ IH]; [by apply elem_of_nil in Hin|].
      apply elem_of_cons in Hin as [->|Hin]; [|by apply IH].
      destruct Hx as (Hid & Hrole & _). by rewrite Hid. }
    destruct (removeFamilyMember_guarded rt fid (member_id m) σ1 _ fam Hu Hf1)
      as (σ2 & (S2 & _) & ->).
    assert (Hf2 : families (store σ2) !! getDocRef rt "families" fid
                  = Some fam) by (by rewrite S2).
    rewrite (commit_family rt _ _ _ _ Hf2).
    case_bool_decide as Hadmin; cbn [negb andb]; [|by eexists].
    rewrite (bool_decide_ext _ _ Hrole).
    case_bool_decide; cbn [negb]; [by eexists|reflexivity].
  - destruct (leaveFamily_guarded rt fid σ1 _ fam Hu Hf1)
      as (σ2 & (S2 & _) & ->).
    assert (Hf2 : families (store σ2) !! getDocRef rt "families" fid
                  = Some fam) by (by rewrite S2).
    rewrite (commit_family rt _ _ _ _ Hf2).
    case_bool_decide; cbn [negb]; [by eexists|reflexivity].
Qed.

Lemma family_page_offers_what_the_service_accepts_witness :
  let rt := Sample.runtime (Some "u1") Sample.utc in
  let load := getFamilyWithMembers rt "f1" Sample.joined in
  let user := {| usr_id := "u1"; usr_email := "a@x.org";
                 usr_displayName := "a@x.org"; usr_photoUrl := None;
                 usr_families := ["f1"]; usr_createdAt := 0;
                 usr_updatedAt := 0 |} in
  ∃ detail,
    load = (Ok (Some detail), load.2) ∧
    currentUser rt = Some (usr_id user) ∧
    leaveButtonShown (Some user) detail = false ∧
    throws (leaveFamily rt "f1" load.2).1.
Proof.
  cbn zeta.
  pose (rt := Sample.runtime (Some "u1") Sample.utc).
  pose (load := getFamilyWithMembers rt "f1" Sample.joined).
  pose (user := {| usr_id := "u1"; usr_email := "a@x.org";
                   usr_displayName := "a@x.org"; usr_photoUrl := None;
                   usr_families := ["f1"]; usr_createdAt := 0%Z;
                   usr_updatedAt := 0%Z |}).
  pose (detail :=
    {| family_of := {| id := "f1"; name := "Smith Family"; createdBy := "u1";
                       members := ["u1"; "u2"];
                       createdAt := 1700000000000;
                       updatedAt := 1700000000000 |};
       memberDetails :=
         [ {| member_id := "u1"; member_displayName := "a@x.org";
              member_email := "a@x.org"; member_photoUrl := None;
              role := admin |};
           {| member_id := "u2"; member_displayName := "b@x.org";
              member_email := "b@x.org"; member_photoUrl := None;
              role := member |} ] |}).
  assert (Hload : load = (Ok (Some detail), load.2))
    by (vm_compute; reflexivity).
  exists detail. split; [exact Hload|]. split; [reflexivity|].
  split; [reflexivity|].
  exact (proj2 (family_page_offers_what_the_service_accepts rt "f1"
                  Sample.joined load.2 detail user Hload eq_refl)).
Defined.

(** ** The families of a user *)

(** *** Paths and queries *)

Lemma stripPrefix_Some p s r : stripPrefix p s = Some r ↔ s = p +:+ r.
Proof.
  revert s. induction p as [|a p IH]; intros s.
  - cbn. rewrite app_nil_l_string. split; [by intros [= ->]|by intros ->].
  - destruct s as [|b s]; cbn; rewrite app_cons.
    + split; intros [=].
    + case_bool_decide as Hab.
      * subst. rewrite IH. split; [by intros ->|by intros [= ->]].
      * split; [done|]. by intros [= -> ->].
Qed.

Lemma documentIdIn_Some coll key d :
  documentIdIn coll key = Some d ↔
  key = coll +:+ "/" +:+ d ∧ validDocumentId d = true.
Proof.
  unfold documentIdIn. split.
  - destruct (stripPrefix (coll +:+ "/") key) as [r|] eqn:Hs; cbn; [|done].
    destruct (validDocumentId r) eqn:Hv; [|done]. intros [= ->].
    apply stripPrefix_Some in Hs. by rewrite app_assoc_string in Hs.
  - intros [-> Hv]. rewrite <- app_assoc_string.
    rewrite (proj2 (stripPrefix_Some _ _ d) eq_refl). cbn. by rewrite Hv.
Qed.

Lemma elem_of_collectionDocs {D} coll (docs : gmap string D) d doc :
  (d, doc) ∈ collectionDocs coll docs ↔
  validDocumentId d = true ∧ docs !! (coll +:+ "/" +:+ d) = Some doc.
Proof.
  unfold collectionDocs. rewrite merge_sort_Permutation, list_elem_of_omap.
  split.
  - intros ([k v] & Hin & Hsome). apply elem_of_map_to_list in Hin.
    cbn in Hsome.
    destruct (documentIdIn coll k) as [d'|] eqn:Hd; cbn in Hsome; [|done].
    injection Hsome as -> ->.
    by apply documentIdIn_Some in Hd as [-> Hv].
  - intros [Hv Hl]. exists (coll +:+ "/" +:+ d, doc).
    split; [by apply elem_of_map_to_list|]. cbn.
    by rewrite (proj2 (documentIdIn_Some _ _ _) (conj eq_refl Hv)).
Qed.

Lemma NoDup_collectionDocs {D} coll (docs : gmap string D) :
  NoDup (collectionDocs coll docs).*1.
Proof.
  unfold collectionDocs. rewrite merge_sort_Permutation.
  generalize (NoDup_fst_map_to_list docs).
  induction (map_to_list docs) as [|[k v] l IH]; cbn; [constructor|].
  intros [Hk Hnd]%NoDup_cons.
  destruct (documentIdIn coll k) as [d|] eqn:Hd; cbn; [|by apply IH].
  apply NoDup_cons. split; [|by apply IH].
  intros ([d' v'] & Heq & Hin)%list_elem_of_fmap. cbn in Heq. subst d'.
  apply list_elem_of_omap in Hin as ([k' v''] & Hin & Hsome). cbn in Hsome.
  destruct (documentIdIn coll k') as [d'|] eqn:Hd'; cbn in Hsome; [|done].
  injection Hsome as -> ->.
  apply documentIdIn_Some in Hd as [-> _].
  apply documentIdIn_Some in Hd' as [-> _].
  apply Hk, list_elem_of_fmap. by exists (coll +:+ "/" +:+ d, v').
Qed.

(** *** The query of [getUserFamilies] *)

Lemma convertFirestoreFamily_run rt fid data σ :
  ∃ family σ1,
    convertFirestoreFamily rt fid data σ = (Ok family, σ1) ∧ readOnly σ σ1 ∧
    id family = fid ∧ name family = fam_name data ∧
    createdBy family = fam_createdBy data ∧
    members family = default [] (fam_members data).
Proof.
  unfold convertFirestoreFamily, mbind, M_bind.
  destruct (toDateOrNow_run rt (fam_createdAt data) σ)
    as (t1 & σ1 & -> & R1 & _).
  destruct (toDateOrNow_run rt (fam_updatedAt data) σ1)
    as (t2 & σ2 & -> & R2 & _).
  cbn. eexists _, _. split; [reflexivity|].
  split; [by eapply readOnly_trans|done].
Qed.

Lemma getUserFamilies_signed_in rt uid σ :
  currentUser rt = Some uid →
  ∃ fams σ',
    getUserFamilies rt σ = (Ok fams, σ') ∧ readOnly σ σ' ∧
    NoDup (id <$> fams) ∧
    (∀ f, f ∈ fams → listed rt σ uid f) ∧
    (∀ fid data,
       validDocumentId fid = true →
       families (store σ) !! getDocRef rt "families" fid = Some data →
       uid ∈ default [] (fam_members data) →
       fid ∈ id <$> fams).
Proof.
  intros Hu. unfold getUserFamilies, getCurrentAuthUser. rewrite Hu.
  unfold tryCatch. rewrite bind_run.
  unfold getDocs_families_with_member at 1.
  set (docs := filter _ _).
  destruct (mapM_reads
              (λ doc : string * FirestoreFamily,
                 convertFirestoreFamily rt doc.1 doc.2)
              (λ doc f, id f = doc.1 ∧ name f = fam_name doc.2 ∧
                        createdBy f = fam_createdBy doc.2 ∧
                        members f = default [] (fam_members doc.2))
              docs σ) as (fams & σ' & -> & R & Hall).
  { intros [d data] σ0 _.
    destruct (convertFirestoreFamily_run rt d data σ0)
      as (f & σ1 & Hrun & R1 & Hf).
    by exists f, σ1. }
  assert (Hids : id <$> fams = docs.*1).
  { clear -Hall. induction Hall as [|doc f l fs (Hid & _) _ IH]; [done|].
    cbn. by rewrite Hid, IH. }
  assert (Hdocs : ∀ d data, (d, data) ∈ docs ↔
            validDocumentId d = true ∧
            families (store σ) !! getDocRef rt "families" d = Some data ∧
            uid ∈ default [] (fam_members data)).
  { intros d data. unfold docs.
    rewrite list_elem_of_filter, elem_of_collectionDocs. cbn.
    unfold getCollectionRef, getDocRef. tauto. }
  exists fams, σ'. split; [reflexivity|]. split; [exact R|].
  split; [|split].
  - rewrite Hids. unfold docs.
    eapply sublist_NoDup;
      [exact (NoDup_collectionDocs (getCollectionRef rt "families")
                (families (store σ)))|].
    apply fmap_sublist, sublist_filter.
  - intros f Hin.
    destruct (proj1 (list_elem_of_lookup _ _) Hin) as (i & Hi).
    destruct (Forall2_lookup_r _ _ _ _ _ Hall Hi)
      as ([d data] & Hdoc & Hid & Hn & Hc & Hm).
    cbn in Hid, Hn, Hc, Hm.
    apply list_elem_of_lookup_2 in Hdoc. apply Hdocs in Hdoc
      as (Hv & Hl & Hmem).
    rewrite <- Hid in Hv, Hl. split; [exact Hv|]. by exists data.
  - intros fid data Hv Hl Hmem. rewrite Hids.
    apply list_elem_of_fmap. exists (fid, data). split; [done|].
    by apply Hdocs.
Qed.

(** X21. [getUserFamilies] never throws and writes nothing.  Signed
    out, it returns the empty list.  For a signed-in user it returns each
    family once; every family returned is a document of the families
    collection whose [members] hold the user, with the name, the creator
    and the members of that document; and every such document with an id
    of one segment is returned. *)
Theorem getUserFamilies_lists_the_callers_families (rt : Runtime) (σ : World) :
  match currentUser rt with
  | None => getUserFamilies rt σ = (Ok [], σ)
  | Some uid =>
      ∃ fams σ',
        getUserFamilies rt σ = (Ok fams, σ') ∧ readOnly σ σ' ∧
        NoDup (id <$> fams) ∧
        (∀ f, f ∈ fams → listed rt σ uid f) ∧
        (∀ fid data,
           validDocumentId fid = true →
           families (store σ) !! getDocRef rt "families" fid = Some data →
           uid ∈ default [] (fam_members data) →
           fid ∈ id <$> fams)
  end.
Proof.
  destruct (currentUser rt) as [uid|] eqn:Hu.
  - by apply getUserFamilies_signed_in.
  - unfold getUserFamilies, getCurrentAuthUser. by rewrite Hu.
Qed.

(** X22. Joining shows: once [acceptFamilyInvite] has returned a family
    to a user, [getUserFamilies] of that user, called afterwards in the
    same environment, lists the family, provided the family's id is a
    single path segment (not empty and without a slash). *)
Theorem accepted_family_is_listed (rt rt' : Runtime) (inviteId uid : string)
    (σ σ1 : World) (family : Family) :
  acceptFamilyInvite rt inviteId σ = (Ok family, σ1) →
  currentUser rt = Some uid →
  importMetaEnv rt' = importMetaEnv rt →
  currentUser rt' = Some uid →
  validDocumentId (id family) = true →
  ∃ fams σ2,
    getUserFamilies rt' σ1 = (Ok fams, σ2) ∧ id family ∈ id <$> fams.
Proof.
  intros Hrun Hu Henv Hu' Hv.
  destruct (acceptFamilyInvite_effect rt inviteId σ) as (r & σ' & Heff & Hc).
  rewrite Hrun in Heff. injection Heff as <- <-.
  destruct Hc as [(msg & [=] & _)
                 |(uid0 & data & fam & ts & Hu0 & _ & _ & Hf & Hout & Hfs
                   & [([=] & _)|(family0 & usr & [= <-] & Hid & _)])].
  rewrite Hu in Hu0. injection Hu0 as <-.
  destruct (getUserFamilies_signed_in rt' uid σ1 Hu')
    as (fams & σ2 & Hrun' & _ & _ & _ & Hall).
  exists fams, σ2. split; [exact Hrun'|].
  eapply Hall; [exact Hv| |].
  - rewrite (getDocRef_same_env rt rt' _ _ Henv), Hfs, Hid.
    apply lookup_insert_eq.
  - cbn. rewrite bool_decide_eq_false_2 by exact Hout.
    apply elem_of_app. right. by apply list_elem_of_singleton.
Qed.

(** X23. After a removal the two sources of a user's families disagree.
    When [removeFamilyMember] has removed a member whose user document
    lists the family, [getUserFamilies] of that member no longer returns
    the family, while [getCurrentUser] still returns a profile whose
    [families] hold it. *)
Theorem removed_member_is_still_told_of_the_family (rt rt' : Runtime)
    (fid mid : string) (σ σ1 : World) (u : FirestoreUser) :
  removeFamilyMember rt fid mid σ = (Ok tt, σ1) →
  importMetaEnv rt' = importMetaEnv rt →
  currentUser rt' = Some mid →
  users (store σ) !! getDocRef rt "users" mid = Some u →
  fid ∈ default [] (user_families u) →
  (∃ fams σ2,
     getUserFamilies rt' σ1 = (Ok fams, σ2) ∧ (fid ∉ id <$> fams)) ∧
  (∃ user σ2,
     getCurrentUser rt' σ1 = (Ok (Some user), σ2) ∧
     fid ∈ usr_families user).
Proof.
  intros Hrun Henv Hu' Husr Hin.
  destruct (removeFamilyMember_effect rt fid mid σ) as (r & σ' & Heff & Hc).
  rewrite Hrun in Heff. injection Heff as <- <-.
  destruct Hc as [([msg [=]] & _)
                 |(fam & ts & _ & _ & Hf & _ & Hus & _ & Hfs)].
  split.
  - destruct (getUserFamilies_signed_in rt' mid σ1 Hu')
      as (fams & σ2 & Hrun' & _ & _ & Hlisted & _).
    exists fams, σ2. split; [exact Hrun'|].
    intros (f & Hid & Hf')%list_elem_of_fmap.
    destruct (Hlisted f Hf') as (_ & data & Hl & Hmem & _).
    rewrite <- Hid, (getDocRef_same_env rt rt' _ _ Henv), Hfs,
      lookup_insert_eq in Hl.
    injection Hl as <-. cbn in Hmem.
    apply list_elem_of_filter in Hmem as [Hne _]. by apply Hne.
  - unfold getCurrentUser, getCurrentAuthUser. rewrite Hu'.
    destruct (getUserById_Some rt' mid σ1 u)
      as (user & σ2 & Hrun' & _ & _ & _ & _ & _ & Hfams).
    { by rewrite (getDocRef_same_env rt rt' _ _ Henv), Hus. }
    exists user, σ2. split; [exact Hrun'|]. by rewrite Hfams.
Qed.

Lemma accepted_family_is_listed_witness :
  let rt := Sample.runtime (Some "u2") Sample.utc in
  let rt' := Sample.runtime (Some "u2") Sample.berlin in
  let accept := acceptFamilyInvite rt "i1" Sample.invited in
  ∃ family,
    accept = (Ok family, accept.2) ∧
    validDocumentId (id family) = true ∧
    ∃ fams σ2,
      getUserFamilies rt' accept.2 = (Ok fams, σ2) ∧ id family ∈ id <$> fams.
Proof.
  cbn zeta.
  pose (accept := acceptFamilyInvite (Sample.runtime (Some "u2") Sample.utc)
                    "i1" Sample.invited).
  pose (family := {| id := "f1"; name := "Smith Family";
                     createdBy := "u1"; members := ["u1"; "u2"];
                     createdAt := 1700000000000;
                     updatedAt := 1700000000000 |}).
  assert (H : accept = (Ok family, accept.2)) by (vm_compute; reflexivity).
  exists family. split; [exact H|]. split; [reflexivity|].
  exact (accepted_family_is_listed
           (Sample.runtime (Some "u2") Sample.utc)
           (Sample.runtime (Some "u2") Sample.berlin)
           "i1" "u2" Sample.invited accept.2 family H eq_refl eq_refl eq_refl
           eq_refl).
Defined.

Lemma removed_member_is_still_told_of_the_family_witness :
  let rt := Sample.runtime (Some "u1") Sample.utc in
  let rt' := Sample.runtime (Some "u2") Sample.utc in
  let removal := removeFamilyMember rt "f1" "u2" Sample.joined in
  removal = (Ok tt, removal.2) ∧
  (∃ fams σ2,
     getUserFamilies rt' removal.2 = (Ok fams, σ2) ∧ ("f1" ∉ id <$> fams)) ∧
  (∃ user σ2,
     getCurrentUser rt' removal.2 = (Ok (Some user), σ2) ∧
     "f1" ∈ usr_families user).
Proof.
  cbn zeta.
  pose (removal := removeFamilyMember (Sample.runtime (Some "u1") Sample.utc)
                     "f1" "u2" Sample.joined).
  assert (H : removal = (Ok tt, removal.2)) by (vm_compute; reflexivity).
  assert (Hu : users (store Sample.joined)
                 !! getDocRef (Sample.runtime (Some "u1") Sample.utc)
                      "users" "u2"
               = Some (Sample.profile "b@x.org" ["f1"]))
    by (vm_compute; reflexivity).
  split; [exact H|].
  exact (removed_member_is_still_told_of_the_family
           (Sample.runtime (Some "u1") Sample.utc)
           (Sample.runtime (Some "u2") Sample.utc)
           "f1" "u2" Sample.joined removal.2 _ H eq_refl eq_refl Hu
           (proj2 (list_elem_of_singleton _ _) eq_refl)).
Defined.


(** ** The app shell *)

Lemma onAuthPage_authStateChanged (user : option User) (s : AppShell) :
  onAuthPage (authStateChanged user s) = bool_decide (user = None).
Proof.
  destruct s as [l cu r sel].
  unfold authStateChanged, onAuthPage, noFamilySelected, navigateTo.
  cbn [isLoading shell_currentUser currentRoute selectedFamilyId].
  destruct user as [u|].
  - rewrite (bool_decide_eq_false_2 (Some u = None)) by discriminate.
    destruct (usr_families u) as [|first rest]; by shell_cases r sel.
  - rewrite (bool_decide_eq_true_2 (None = None)) by reflexivity.
    by shell_cases r sel.
Qed.

(** X24. The callback the shell gives to [onAuthStateChange] ends the
    loading state, stores the user, and leaves the shell on an auth page
    (login or signup) exactly when there is no user.  A route that
    already fits is kept.  A family that is selected stays selected, also
    when the user is another one; without a selection the first family of
    the user's profile is selected.  Running the callback again with the
    same user changes nothing. *)
Theorem authStateChanged_settles_the_shell (user : option User)
    (s : AppShell) :
  let s' := authStateChanged user s in
  isLoading s' = false ∧
  shell_currentUser s' = user ∧
  onAuthPage s' = bool_decide (user = None) ∧
  (onAuthPage s = bool_decide (user = None) →
   currentRoute s' = currentRoute s) ∧
  (noFamilySelected s = false → selectedFamilyId s' = selectedFamilyId s) ∧
  (noFamilySelected s = true →
   selectedFamilyId s' = match user with
                         | Some u => match usr_families u with
                                     | first :: _ => Some first
                                     | [] => selectedFamilyId s
                                     end
                         | None => selectedFamilyId s
                         end) ∧
  authStateChanged user s' = s'.
Proof.
  destruct s as [l cu r sel].
  unfold authStateChanged, onAuthPage, noFamilySelected, navigateTo.
  cbn [isLoading shell_currentUser currentRoute selectedFamilyId].
  destruct user as [u|].
  - rewrite (bool_decide_eq_false_2 (Some u = None)) by discriminate.
    destruct (usr_families u) as [|first rest]; shell_cases r sel;
      split_and!; try done; by destruct (falsy first).
  - rewrite (bool_decide_eq_true_2 (None = None)) by reflexivity.
    shell_cases r sel; split_and!; try done.
Qed.

(** X25. The listener of [onAuthStateChange] never throws and writes
    nothing.  It passes no user to the callback when nobody is signed in
    and also when the account that signed in has no user document;
    otherwise it passes the profile read from the document of that
    account.  So the shell is on an auth page after the callback exactly
    when no profile was passed, whether or not an account is signed
    in. *)
Theorem onAuthStateChange_reports_the_profile (rt : Runtime)
    (firebaseUser : option string) (σ : World) :
  ∃ user σ',
    onAuthStateChange rt firebaseUser σ = (Ok user, σ') ∧
    readOnly σ σ' ∧
    match firebaseUser with
    | None => user = None
    | Some uid =>
        match users (store σ) !! getDocRef rt "users" uid with
        | None => user = None
        | Some data =>
            ∃ u, user = Some u ∧ usr_id u = uid ∧
                 usr_email u = user_email data ∧
                 usr_families u = default [] (user_families data)
        end
    end ∧
    ∀ s, onAuthPage (authStateChanged user s) = bool_decide (user = None).
Proof.
  pose proof onAuthPage_authStateChanged as Hshell.
  destruct firebaseUser as [uid|]; cbn [onAuthStateChange].
  2: { exists None, σ. split; [reflexivity|]. split; [apply readOnly_refl|].
       split; [reflexivity|]. intros s. apply Hshell. }
  unfold tryCatch.
  destruct (users (store σ) !! getDocRef rt "users" uid) as [data|] eqn:Hd.
  - destruct (getUserById_Some rt uid σ data Hd)
      as (u & σ1 & -> & R & Hid & Hem & _ & _ & Hfams).
    exists (Some u), σ1. split; [reflexivity|]. split; [exact R|].
    split; [by exists u|]. intros s. apply Hshell.
  - rewrite (getUserById_None rt uid σ Hd).
    exists None, σ. split; [reflexivity|]. split; [apply readOnly_refl|].
    split; [reflexivity|]. intros s. apply Hshell.
Qed.

(** X26. [handleLogout] leaves the shell on the login page without a
    user and without a selected family, the same state whether the
    sign-out callback runs before or after it; the next user to sign in
    gets the first family of their own profile selected, or none. *)
Theorem handleLogout_clears_the_selection (s : AppShell) :
  let s' := handleLogout s in
  shell_currentUser s' = None ∧
  currentRoute s' = "login" ∧
  selectedFamilyId s' = None ∧
  authStateChanged None s' = handleLogout (authStateChanged None s) ∧
  ∀ u, selectedFamilyId (authStateChanged (Some u) s')
       = head (usr_families u).
Proof.
  destruct s as [l cu r sel].
  unfold handleLogout, authStateChanged, onAuthPage, noFamilySelected,
    navigateTo.
  cbn [isLoading shell_currentUser currentRoute selectedFamilyId].
  split_and!; try done.
  - by shell_cases r sel.
  - intros u. destruct (usr_families u) as [|first rest]; by do 4 shell_step.
Qed.

(** ** Invites without an expiry *)

Lemma getInvite_without_expiry (rt : Runtime) (iid : string) (σ : World)
    (data : FirestoreInvite) :
  invites (store σ) !! getDocRef rt "invites" iid = Some data →
  inv_expiresAt data = None →
  ∃ invite σ1,
    getInvite rt iid σ = (Ok (Some invite), σ1) ∧
    status invite = inv_status data ∧
    dateReads σ1 = S (clockReadsBeforeExpiry σ data) ∧
    expiresAt invite
    = wallClock rt (clockReadsBeforeExpiry σ data).
Proof.
  intros Hi He. unfold getInvite, tryCatch, mbind, M_bind, getDoc_invite.
  rewrite Hi, He. unfold clockReadsBeforeExpiry.
  destruct (inv_createdAt data); cbn; by eexists _, _.
Qed.

(** X27. An invite document without [expiresAt] expires as it is read.
    [getInvite] fills the field in with the time of its own clock read,
    and [acceptFamilyInvite] compares it with a later read: for a pending
    invite of this kind a signed-in caller is refused with
    ["This invite has expired"], and nothing is written, exactly when the
    clock has advanced between the two reads. *)
Theorem invite_without_expiry_expires_when_read (rt : Runtime)
    (inviteId uid : string) (σ : World) (data : FirestoreInvite) :
  currentUser rt = Some uid →
  invites (store σ) !! getDocRef rt "invites" inviteId = Some data →
  inv_status data = pending →
  inv_expiresAt data = None →
  let n := clockReadsBeforeExpiry σ data in
  ∃ r σ',
    acceptFamilyInvite rt inviteId σ = (r, σ') ∧
    ((wallClock rt n < wallClock rt (S n))%Z →
     r = Err "This invite has expired" ∧
     store σ' = store σ ∧ writes σ' = writes σ) ∧
    ((wallClock rt (S n) ≤ wallClock rt n)%Z →
     r ≠ Err "This invite has expired").
Proof.
  intros Hu Hi Hst He n.
  destruct (getInvite_without_expiry rt inviteId σ data Hi He)
    as (invite & σ1 & Hrun & Hs & Hreads & Hexp).
  fold n in Hreads, Hexp.
  destruct (acceptFamilyInvite_guarded rt _ _ _ _ _ Hu Hrun)
    as (σ2 & (S2 & W2 & _) & Htree).
  rewrite Hs, Hst, (bool_decide_eq_true_2 (pending = pending)) in Htree
    by reflexivity.
  cbn [negb] in Htree. rewrite Hexp, Hreads in Htree.
  case_bool_decide as Hlate.
  { exists (Err "This invite has expired"), σ2.
    split; [exact Htree|]. split; [done|lia]. }
  destruct (families (store σ) !! getDocRef rt "families" (familyId invite))
    as [fam|].
  2: { eexists _, σ2. split; [exact Htree|]. split; [lia|discriminate]. }
  case_bool_decide.
  { eexists _, σ2. split; [exact Htree|]. split; [lia|discriminate]. }
  destruct Htree as (family & _ & _ & ->).
  match goal with |- context [tryCatch ?b ?h σ2] =>
    destruct (tryCatch b h σ2) as [r σ'] eqn:Hblock end.
  exists r, σ'. split; [reflexivity|]. split; [lia|].
  intros _ ->. by apply tryCatch_rethrown in Hblock.
Qed.

Lemma invite_without_expiry_expires_when_read_witness :
  let rt := tickingRuntime (Some "u2") in
  ∃ σ',
    acceptFamilyInvite rt "i1" openEnded = (Err "This invite has expired", σ') ∧
    store σ' = store openEnded.
Proof.
  cbn zeta.
  destruct (invite_without_expiry_expires_when_read
              (tickingRuntime (Some "u2")) "i1" "u2" openEnded _
              eq_refl eq_refl eq_refl eq_refl)
    as (r & σ' & Hrun & Hlate & _).
  destruct Hlate as (-> & Hs & _); [vm_compute; reflexivity|].
  exists σ'. split; [exact Hrun|exact Hs].
Defined.
